(** * genshin.models.genshin.character: icon codec, character registry,
      reconciliation ([_get_db_char]) and the [BaseCharacter] model.

    Shallow embedding of [src/genshin/models/genshin/character.py].

    Conventions
    - Python [int] is [Z]; [str] is [string], a sequence of 8-bit characters;
      [Optional[T]] is [option T] ([None] is Python's [None], also what
      [dict.get] gives for a missing key).
    - [CHARACTER_NAMES] is a Python [dict]: an association list in insertion
      order, because the source iterates over [.values()] and returns the first
      match.
    - [_get_db_char] mutates [CHARACTER_NAMES], calls [warnings.warn] and may
      raise: it lives in a small state-and-exception monad [M] over [World]. *)

From Stdlib Require Import ZArith List Bool Lia.
From Stdlib Require Import Strings.String Strings.Ascii Numbers.DecimalString.
Import ListNotations.

Open Scope string_scope.
Open Scope Z_scope.

(* ------------------------------------------------------------------ *)
(** ** Python strings *)

(** [str(n)] for an [int]. *)
Definition py_str_int (n : Z) : string := NilEmpty.string_of_int (Z.to_int n).

(** [s.startswith(p)], returning the rest of [s] after [p]. *)
Fixpoint strip_prefix (p s : string) : option string :=
  match p with
  | EmptyString => Some s
  | String a p' =>
      match s with
      | EmptyString => None
      | String b s' => if Ascii.eqb a b then strip_prefix p' s' else None
      end
  end.

Definition startswith (s p : string) : bool :=
  match strip_prefix p s with Some _ => true | None => false end.

(** [needle in s] for two strings. *)
Fixpoint str_in (needle s : string) : bool :=
  startswith s needle ||
  match s with
  | EmptyString => false
  | String _ s' => str_in needle s'
  end.

(** [s.endswith(p)]. *)
Fixpoint endswith (s p : string) : bool :=
  String.eqb s p ||
  match s with
  | EmptyString => false
  | String _ s' => endswith s' p
  end.

(* ------------------------------------------------------------------ *)
(** ** The icon pattern

    The pattern of [_parse_icon] is, in order: the literal [UI_AvatarIcon], an
    optional non-capturing [_Side], the literal [_], group 1 (a greedy star
    over [.]), one more [.] (it is not escaped) and the literal [png].

    [re.search] semantics: the leftmost start position at which the pattern
    matches; at that position the optional group is tried first with [_Side]
    and then without; group 1 is greedy and backtracks; [.] is any character
    except a newline (no [re.DOTALL]), including the unescaped [.] in front
    of [png]. *)

Definition newline : ascii := "010"%char.

Definition is_newline (c : ascii) : bool := Ascii.eqb c newline.

(** Matches group 1, the [.] and [png] at the start of [r] and gives group 1: the longest
    run [r[0..j)] of non-newline characters such that [r[j]] is not a newline
    and [r[j+1..j+4)] is [png]. *)
Fixpoint capture_tail (r : string) : option string :=
  match r with
  | EmptyString => None
  | String c r' =>
      if is_newline c then None
      else
        match capture_tail r' with
        | Some g => Some (String c g)
        | None => if startswith r' "png" then Some EmptyString else None
        end
  end.

(** Matches [_], group 1, the [.] and [png] at the start of [r]. *)
Definition match_underscore_tail (r : string) : option string :=
  match strip_prefix "_" r with
  | Some r' => capture_tail r'
  | None => None
  end.

(** The whole pattern anchored at the start of [s]. *)
Definition match_here (s : string) : option string :=
  match strip_prefix "UI_AvatarIcon" s with
  | None => None
  | Some r0 =>
      let with_side :=
        match strip_prefix "_Side" r0 with
        | Some r1 => match_underscore_tail r1
        | None => None
        end in
      match with_side with
      | Some g => Some g
      | None => match_underscore_tail r0
      end
  end.

(** [re.search] of the pattern in [s], as [match[1]]. *)
Fixpoint re_search (s : string) : option string :=
  match match_here s with
  | Some g => Some g
  | None =>
      match s with
      | EmptyString => None
      | String _ s' => re_search s'
      end
  end.

(* ------------------------------------------------------------------ *)
(** ** Registry records and the dict [CHARACTER_NAMES] *)

(** Modelled from the spec: the named tuple [DBChar] of [constants.py]
    (the spec's CanonicalEntity: id, iconKey, name, element, rarity, guessed),
    in the positional order used by [DBChar(id, icon_name, name, element,
    rarity, guessed=True)] in [_get_db_char]. *)
Module DBChar.
Record t : Type := mk {
  id : Z;
  icon_name : string;
  name : string;
  element : string;
  rarity : Z;
  guessed : bool
}.
End DBChar.

(** A Python [Dict[int, DBChar]], oldest key first. *)
Definition dict : Type := list (Z * DBChar.t).

(** [d.get(k)]. *)
Fixpoint dict_get (k : Z) (d : dict) : option DBChar.t :=
  match d with
  | [] => None
  | (k', v) :: d' => if k =? k' then Some v else dict_get k d'
  end.

(** [k in d]. *)
Definition dict_in (k : Z) (d : dict) : bool :=
  match dict_get k d with Some _ => true | None => false end.

(** [d[k] = v]: an existing key keeps its place, a new key goes last. *)
Fixpoint dict_setitem (k : Z) (v : DBChar.t) (d : dict) : dict :=
  match d with
  | [] => [(k, v)]
  | (k', v') :: d' =>
      if k =? k' then (k, v) :: d' else (k', v') :: dict_setitem k v d'
  end.

(** [d.values()]. *)
Definition dict_values (d : dict) : list DBChar.t := map snd d.

Definition dict_keys (d : dict) : list Z := map fst d.

(** [for char in chars: if p(char): return char]. *)
Fixpoint first_where (p : DBChar.t -> bool) (chars : list DBChar.t) : option DBChar.t :=
  match chars with
  | [] => None
  | char :: rest => if p char then Some char else first_where p rest
  end.

(* ------------------------------------------------------------------ *)
(** ** State, warnings and exceptions *)

(** Both errors raised by the module are [ValueError]s, told apart by their
    message; [ValidationError] is pydantic's, for a required field that is
    missing. *)
Inductive exception : Type :=
| ValueError (msg : string)
| ValidationError (msg : string).

Record World : Type := mkWorld {
  CHARACTER_NAMES : dict;
  warned : list string      (* messages passed to [warnings.warn], oldest first *)
}.

Definition M (A : Type) : Type := World -> (exception + A) * World.

Definition ret {A} (a : A) : M A := fun w => (inr a, w).

Definition bind {A B} (m : M A) (k : A -> M B) : M B :=
  fun w =>
    match m w with
    | (inl e, w') => (inl e, w')
    | (inr a, w') => k a w'
    end.

Definition raise {A} (e : exception) : M A := fun w => (inl e, w).

Definition warn (msg : string) : M unit :=
  fun w => (inr tt, mkWorld (CHARACTER_NAMES w) (warned w ++ [msg])).

Definition names : M dict := fun w => (inr (CHARACTER_NAMES w), w).

Definition names_setitem (k : Z) (v : DBChar.t) : M unit :=
  fun w => (inr tt, mkWorld (dict_setitem k v (CHARACTER_NAMES w)) (warned w)).

Notation "x <- m ;; k" := (bind m (fun x => k))
  (at level 61, m at next level, right associativity).
Notation "m ;;; k" := (bind m (fun _ => k))
  (at level 61, right associativity).

(* ------------------------------------------------------------------ *)
(** ** Truthiness of optional values *)

Definition truthy_int (x : option Z) : bool :=
  match x with Some n => negb (n =? 0) | None => false end.

Definition truthy_str (x : option string) : bool :=
  match x with Some s => negb (String.eqb s "") | None => false end.

(** [x or d]. *)
Definition int_or (x : option Z) (d : Z) : Z :=
  if truthy_int x then match x with Some n => n | None => d end else d.

Definition str_or (x : option string) (d : string) : string :=
  if truthy_str x then match x with Some s => s | None => d end else d.

(** How an f-string prints an optional value. *)
Definition fmt_int (x : option Z) : string :=
  match x with Some n => py_str_int n | None => "None" end.

Definition fmt_str (x : option string) : string :=
  match x with Some s => s | None => "None" end.

(* ------------------------------------------------------------------ *)
(** ** The module's functions *)

Definition ICON_BASE : string :=
  "https://upload-os-bbs.mihoyo.com/game_record/genshin/".

(** [_parse_icon] on a [str] argument: the regular-expression branch. *)
Definition _parse_icon_str (icon : string) : string :=
  match re_search icon with
  | Some g => g
  | None => icon
  end.

(** [_parse_icon(icon: Union[str, int])]: [inl] is a [str], [inr] an [int]. *)
Definition _parse_icon (icon : string + Z) : M string :=
  match icon with
  | inr n =>
      d <- names ;;
      match dict_get n d with
      | None => raise (ValueError ("Invalid character id " ++ py_str_int n))
      | Some char => ret (DBChar.icon_name char)
      end
  | inl s => ret (_parse_icon_str s)
  end.

(** [_create_icon(icon: str, specifier, scale=0)]. *)
Definition _create_icon (icon specifier : string) (scale : Z) : string :=
  let icon_name := _parse_icon_str icon in
  ICON_BASE ++ specifier ++ "_" ++ icon_name
    ++ (if scale =? 0 then "" else "@" ++ py_str_int scale ++ "x") ++ ".png".

(** [id and id in CHARACTER_NAMES], with the item [CHARACTER_NAMES[id]] that
    is then returned. *)
Definition id_hit (id : option Z) (d : dict) : option DBChar.t :=
  if truthy_int id then dict_get (int_or id 0) d else None.

(** [icon and "genshin" in icon]. *)
Definition recognizable (icon : option string) : bool :=
  truthy_str icon && str_in "genshin" (str_or icon "").

(** [_get_db_char(id, name, icon, element, rarity)]. *)
Definition _get_db_char (id : option Z) (name icon element : option string)
    (rarity : option Z) : M DBChar.t :=
  d <- names ;;
  match id_hit id d with
  | Some char => ret char
  | None =>
      if recognizable icon then
        icon_name <- _parse_icon (inl (str_or icon "")) ;;
        match first_where (fun char => String.eqb (DBChar.icon_name char) icon_name)
                          (dict_values d) with
        | Some char => ret char
        | None =>
            if truthy_int id && truthy_str name && truthy_str icon
               && truthy_str element && truthy_int rarity then
              let char := DBChar.mk (int_or id 0) icon_name (str_or name "")
                                   (str_or element "") (int_or rarity 0) true in
              names_setitem (DBChar.id char) char ;;;
              ret char
            else
              warn ("Completing data for an unknown character: id=" ++ fmt_int id
                    ++ ", icon=" ++ icon_name ++ ", name=" ++ fmt_str name) ;;;
              ret (DBChar.mk 0 icon_name icon_name (str_or element "Anemo")
                            (int_or rarity 5) true)
        end
      else if truthy_str name then
        match first_where (fun char => String.eqb (DBChar.name char) (str_or name ""))
                          (dict_values d) with
        | Some char => ret char
        | None =>
            warn ("Completing data for a partial character: id=" ++ fmt_int id
                  ++ ", name=" ++ fmt_str name) ;;;
            ret (DBChar.mk 0 (str_or name "") (str_or name "")
                          (str_or element "Anemo") (int_or rarity 5) true)
        end
      else raise (ValueError "Character data incomplete")
  end.

(* ------------------------------------------------------------------ *)
(** ** The model [BaseCharacter] *)

(** The [values] dict handed to the root validator, at the keys of the
    model's fields. [None] is what [values.get] gives: the key is missing (or
    holds [None]). *)
Module Values.
Record t : Type := mk {
  id : option Z;
  name : option string;
  element : option string;
  rarity : option Z;
  icon : option string;
  collab : option bool
}.

(** [values[k]] for an [int] key that has been assigned. *)
Definition item (x : option Z) : Z :=
  match x with Some n => n | None => 0 end.
End Values.

Module BaseCharacter.

Record t : Type := mk {
  id : Z;
  name : string;
  element : string;
  rarity : Z;
  icon : string;
  collab : bool
}.

(** The root validator [__autocomplete] ([pre=True]: it sees the raw input).
    The call of [_get_db_char] is positional: the second argument, [icon],
    lands in the parameter [name] and the third, [name], in [icon]. *)
Definition __autocomplete (values : Values.t) : M Values.t :=
  let id := Values.id values in
  let name := Values.name values in
  let icon := Values.icon values in
  let element := Values.element values in
  let rarity := Values.rarity values in
  char <- _get_db_char id icon name element rarity ;;
  let icon := _create_icon (DBChar.icon_name char) "character_icon/UI_AvatarIcon" 0 in
  let values :=
    Values.mk (Some (DBChar.id char)) (Some (DBChar.name char))
              (Some (DBChar.element char)) (Some (DBChar.rarity char))
              (Values.icon values) (Values.collab values) in
  let values :=
    if truthy_str (Values.icon values) then
      if negb (str_in "genshin" (str_or (Values.icon values) ""))
         && negb (DBChar.id char =? 0)
      then Values.mk (Values.id values) (Values.name values) (Values.element values)
                     (Values.rarity values) (Some icon) (Values.collab values)
      else values
    else Values.mk (Values.id values) (Values.name values) (Values.element values)
                   (Values.rarity values) (Some icon) (Values.collab values) in
  let values :=
    if Values.item (Values.rarity values) >? 100 then
      Values.mk (Values.id values) (Values.name values) (Values.element values)
                (Some (Values.item (Values.rarity values) - 100))
                (Values.icon values) (Some true)
    else if Values.item (Values.id values) =? 10000062 then
      Values.mk (Values.id values) (Values.name values) (Values.element values)
                (Values.rarity values) (Values.icon values) (Some true)
    else values in
  ret values.

(** Field validation after the root validator: the five fields without a
    default are required, [collab] defaults to [False]. *)
Definition of_values (values : Values.t) : option t :=
  match Values.id values, Values.name values, Values.element values,
        Values.rarity values, Values.icon values with
  | Some id, Some name, Some element, Some rarity, Some icon =>
      Some (mk id name element rarity icon
               (match Values.collab values with Some b => b | None => false end))
  | _, _, _, _, _ => None
  end.

(** Construction of a [BaseCharacter] from keyword arguments [values]: the
    root validator, then the fields. An exception of the validator ends the
    construction. *)
Definition new (values : Values.t) : M t :=
  values <- __autocomplete values ;;
  match of_values values with
  | Some self => ret self
  | None => raise (ValidationError "field required")
  end.

Definition image (self : t) : string :=
  _create_icon (icon self) "character_image/UI_AvatarIcon" 2.

Definition side_icon (self : t) : string :=
  _create_icon (icon self) "character_side_icon/UI_AvatarIcon_Side" 0.

Definition traveler_name (self : t) : string :=
  if id self =? 10000005 then "Aether"
  else if id self =? 10000007 then "Lumine"
  else "".

End BaseCharacter.

(* ------------------------------------------------------------------ *)
(** ** Predicates on strings *)

(** Every character of [s] passes the test [p]. *)
Fixpoint str_forall (p : ascii -> bool) (s : string) : bool :=
  match s with
  | EmptyString => true
  | String c s' => p c && str_forall p s'
  end.

(** [s] has no line break in it. *)
Definition no_newline (s : string) : bool :=
  str_forall (fun c => negb (is_newline c)) s.

(** [s] has no capital U in it, the first letter of the icon pattern. *)
Definition no_capital_U (s : string) : bool :=
  str_forall (fun c => negb (Ascii.eqb "U" c)) s.

(* ------------------------------------------------------------------ *)
(** ** Predicates on the registry *)

(** No record of the registry has this [icon_name]. *)
Definition no_icon_name (k : string) (d : dict) : Prop :=
  forall char, In char (dict_values d) -> DBChar.icon_name char <> k.

(** No record of the registry has this [name]. *)
Definition no_name (n : string) (d : dict) : Prop :=
  forall char, In char (dict_values d) -> DBChar.name char <> n.

(** The keys of a dict are distinct, and the built-in table stores every
    record under its own id. *)
Definition dict_wf (d : dict) : Prop :=
  NoDup (dict_keys d) /\ Forall (fun kv => DBChar.id (snd kv) = fst kv) d.

(** No two records of the registry share an id. *)
Definition ids_unique (d : dict) : Prop :=
  NoDup (map DBChar.id (dict_values d)).

(** The states the module can be in, from a start table [init]: every call
    of a function of the module leads from a state to the next. *)
Inductive reachable (init : dict) : World -> Prop :=
| reach_init (log : list string) : reachable init (mkWorld init log)
| reach_get_db_char (w : World) (id : option Z) (name icon element : option string)
    (rarity : option Z) :
    reachable init w ->
    reachable init (snd (_get_db_char id name icon element rarity w))
| reach_parse_icon (w : World) (icon : string + Z) :
    reachable init w -> reachable init (snd (_parse_icon icon w))
| reach_new (w : World) (values : Values.t) :
    reachable init w -> reachable init (snd (BaseCharacter.new values w)).

(* ------------------------------------------------------------------ *)
(** ** Sample data *)

Definition amber : DBChar.t :=
  DBChar.mk 10000021 "Ambor" "Amber" "Pyro" 4 false.

Definition ayaka : DBChar.t :=
  DBChar.mk 10000002 "Ayaka" "Kamisato Ayaka" "Cryo" 5 false.

Definition ayaka_guessed : DBChar.t :=
  DBChar.mk 10000002 "Ayaka" "Kamisato Ayaka" "Cryo" 5 true.

Definition ayaka_url : string :=
  ICON_BASE ++ "character_icon/UI_AvatarIcon_Ayaka.png".

(* ================================================================== *)
(** * Properties *)

(* ------------------------------------------------------------------ *)
(** ** Strings *)

Lemma strip_prefix_app (p s : string) : strip_prefix p (p ++ s) = Some s.
Proof.
  induction p as [|a p IH]; simpl; [reflexivity|].
  now rewrite Ascii.eqb_refl.
Qed.

Lemma strip_prefix_Some (p s r : string) :
  strip_prefix p s = Some r -> s = p ++ r.
Proof.
  revert s; induction p as [|a p IH]; intros s H; simpl in *.
  - now inversion H.
  - destruct s as [|b s]; [discriminate|].
    destruct (Ascii.eqb a b) eqn:E; [|discriminate].
    apply Ascii.eqb_eq in E; subst b.
    now rewrite (IH _ H).
Qed.

Lemma length_app (a b : string) :
  String.length (a ++ b) = (String.length a + String.length b)%nat.
Proof. induction a; simpl; [reflexivity | now rewrite IHa]. Qed.

Lemma startswith_app (p s : string) : startswith (p ++ s) p = true.
Proof. unfold startswith; now rewrite strip_prefix_app. Qed.

Lemma endswith_refl (p : string) : endswith p p = true.
Proof. destruct p; cbn [endswith]; now rewrite String.eqb_refl. Qed.

Lemma endswith_app (a p : string) : endswith (a ++ p) p = true.
Proof.
  induction a as [|c a IH]; [apply endswith_refl|].
  change (String c a ++ p) with (String c (a ++ p)). cbn [endswith].
  rewrite IH. apply orb_true_r.
Qed.

Lemma endswith_inv (s p : string) :
  endswith s p = true -> exists a, s = a ++ p.
Proof.
  induction s as [|c s IH]; cbn [endswith]; intros H.
  - rewrite orb_false_r in H. apply String.eqb_eq in H. now exists "".
  - apply orb_true_iff in H as [H|H].
    + apply String.eqb_eq in H. exists "". now rewrite <- H.
    + destruct (IH H) as [a ->]. now exists (String c a).
Qed.

(* ------------------------------------------------------------------ *)
(** ** The icon pattern: a match is always shorter than its subject *)

Lemma capture_tail_length (r g : string) :
  capture_tail r = Some g -> (String.length g < String.length r)%nat.
Proof.
  revert g; induction r as [|c r IH]; intros g H; simpl in H; [discriminate|].
  destruct (is_newline c); [discriminate|].
  destruct (capture_tail r) as [g'|] eqn:E.
  - inversion H; subst g; simpl. specialize (IH _ eq_refl). lia.
  - destruct (startswith r "png"); inversion H; simpl; lia.
Qed.

Lemma match_underscore_tail_length (r g : string) :
  match_underscore_tail r = Some g -> (String.length g < String.length r)%nat.
Proof.
  unfold match_underscore_tail; intros H.
  destruct (strip_prefix "_" r) as [r'|] eqn:E; [|discriminate].
  apply strip_prefix_Some in E; subst r.
  apply capture_tail_length in H. simpl. lia.
Qed.

Lemma match_here_length (s g : string) :
  match_here s = Some g -> (String.length g < String.length s)%nat.
Proof.
  unfold match_here; intros H.
  destruct (strip_prefix "UI_AvatarIcon" s) as [r0|] eqn:E0; [|discriminate].
  apply strip_prefix_Some in E0.
  assert (L0 : (String.length r0 <= String.length s)%nat)
    by (subst s; rewrite length_app; lia).
  destruct (strip_prefix "_Side" r0) as [r1|] eqn:E1.
  - apply strip_prefix_Some in E1.
    assert (L1 : (String.length r1 <= String.length r0)%nat)
      by (subst r0; rewrite length_app; lia).
    destruct (match_underscore_tail r1) as [g1|] eqn:E2.
    + inversion H; subst g1. apply match_underscore_tail_length in E2. lia.
    + apply match_underscore_tail_length in H. lia.
  - apply match_underscore_tail_length in H. lia.
Qed.

Lemma re_search_length (s g : string) :
  re_search s = Some g -> (String.length g < String.length s)%nat.
Proof.
  induction s as [|c s IH]; simpl; intros H.
  - destruct (match_here "") eqn:E; [|discriminate].
    vm_compute in E. discriminate.
  - destruct (match_here (String c s)) as [g'|] eqn:E.
    + inversion H; subst g'. now apply match_here_length in E.
    + specialize (IH H). simpl. lia.
Qed.

Lemma match_here_startswith (s g : string) :
  match_here s = Some g -> startswith s "UI_AvatarIcon" = true.
Proof.
  unfold match_here, startswith.
  now destruct (strip_prefix "UI_AvatarIcon" s).
Qed.

Lemma re_search_str_in (s g : string) :
  re_search s = Some g -> str_in "UI_AvatarIcon" s = true.
Proof.
  induction s as [|c s IH]; intros H.
  - vm_compute in H. discriminate.
  - cbn [re_search] in H. cbn [str_in].
    destruct (match_here (String c s)) as [g'|] eqn:E.
    + now rewrite (match_here_startswith _ _ E).
    + rewrite (IH H). apply orb_true_r.
Qed.

Lemma parse_icon_str_fixed (y : string) :
  _parse_icon_str y = y <-> re_search y = None.
Proof.
  unfold _parse_icon_str. split.
  - destruct (re_search y) as [g|] eqn:E; [|reflexivity].
    intros ->. apply re_search_length in E. lia.
  - now intros ->.
Qed.

(** [_parse_icon] on a [str] neither raises nor touches the state. *)
Lemma parse_icon_inl (s : string) (w : World) :
  _parse_icon (inl s) w = (inr (_parse_icon_str s), w).
Proof. reflexivity. Qed.

(** C5, counterexample: an icon whose captured key is itself an icon file
    name is parsed a second time to a different key. *)
Lemma parse_icon_not_idempotent :
  _parse_icon_str (_parse_icon_str "UI_AvatarIcon_UI_AvatarIcon_A.png.png")
  <> _parse_icon_str "UI_AvatarIcon_UI_AvatarIcon_A.png.png".
Proof. vm_compute. discriminate. Qed.

(** C5, amended: [_parse_icon(_parse_icon(x)) == _parse_icon(x)] holds
    exactly when the key [_parse_icon(x)] has no match of the icon pattern
    left in it; this is so for every [x] without a match (it is returned
    unchanged) and for every [x] whose key does not contain
    [UI_AvatarIcon]. *)
Theorem parse_icon_idempotent_iff (x : string) :
  (_parse_icon_str (_parse_icon_str x) = _parse_icon_str x
     <-> re_search (_parse_icon_str x) = None)
  /\ (re_search x = None ->
        _parse_icon_str x = x
        /\ _parse_icon_str (_parse_icon_str x) = _parse_icon_str x)
  /\ (str_in "UI_AvatarIcon" (_parse_icon_str x) = false ->
        _parse_icon_str (_parse_icon_str x) = _parse_icon_str x).
Proof.
  split; [apply parse_icon_str_fixed|]. split.
  - intros H. assert (E : _parse_icon_str x = x) by now apply parse_icon_str_fixed.
    now rewrite !E.
  - intros H. apply parse_icon_str_fixed.
    destruct (re_search (_parse_icon_str x)) as [g|] eqn:E; [|reflexivity].
    apply re_search_str_in in E. congruence.
Qed.

Lemma parse_icon_idempotent_iff_witness :
  re_search "Ayaka" = None /\
  _parse_icon_str (_parse_icon_str "Ayaka") = _parse_icon_str "Ayaka".
Proof.
  split; [reflexivity|].
  apply (proj1 (proj2 (parse_icon_idempotent_iff "Ayaka"))). reflexivity.
Defined.

(* ------------------------------------------------------------------ *)
(** ** The dict *)

Lemma dict_in_get (k : Z) (d : dict) :
  dict_in k d = false <-> dict_get k d = None.
Proof. unfold dict_in. destruct (dict_get k d); split; congruence. Qed.

Lemma dict_get_In (k : Z) (d : dict) (c : DBChar.t) :
  dict_get k d = Some c -> In (k, c) d.
Proof.
  induction d as [|[k' v] d IH]; simpl; [discriminate|].
  destruct (Z.eqb_spec k k') as [->|N].
  - intros H; inversion H; now left.
  - intros H; right; auto.
Qed.

Lemma dict_get_None_keys (k : Z) (d : dict) :
  dict_get k d = None <-> ~ In k (dict_keys d).
Proof.
  induction d as [|[k' v] d IH]; simpl.
  - split; [intros _ [] | reflexivity].
  - destruct (Z.eqb_spec k k') as [->|N].
    + split; [discriminate | intros H; exfalso; apply H; now left].
    + rewrite IH. split; [intros H [E|I]; [congruence | auto] | intros H I; apply H; now right].
Qed.

(** Assigning to a key that is not in the dict appends the item. *)
Lemma dict_setitem_new (k : Z) (v : DBChar.t) (d : dict) :
  dict_get k d = None -> dict_setitem k v d = (d ++ [(k, v)])%list.
Proof.
  induction d as [|[k' v'] d IH]; simpl; [reflexivity|].
  destruct (k =? k'); [discriminate|].
  intros H. now rewrite IH.
Qed.

Lemma dict_get_app (k : Z) (d e : dict) :
  dict_get k (d ++ e)%list =
  match dict_get k d with Some c => Some c | None => dict_get k e end.
Proof.
  induction d as [|[k' v'] d IH]; simpl; [reflexivity|].
  now destruct (k =? k').
Qed.

Lemma first_where_None (p : DBChar.t -> bool) (l : list DBChar.t) :
  first_where p l = None <-> (forall c, In c l -> p c = false).
Proof.
  induction l as [|a l IH]; simpl.
  - split; [intros _ c [] | reflexivity].
  - destruct (p a) eqn:E.
    + split; [discriminate | intros H; rewrite (H a) in E; [discriminate | now left]].
    + rewrite IH. split.
      * intros H c [<-|I]; auto.
      * intros H c I; apply H; now right.
Qed.

Lemma first_where_Some (p : DBChar.t -> bool) (l : list DBChar.t) (c : DBChar.t) :
  first_where p l = Some c -> In c l /\ p c = true.
Proof.
  induction l as [|a l IH]; simpl; [discriminate|].
  destruct (p a) eqn:E.
  - intros H; inversion H; subst; split; [now left | assumption].
  - intros H; destruct (IH H); split; [now right | assumption].
Qed.

Lemma dict_get_values (k : Z) (d : dict) (c : DBChar.t) :
  dict_get k d = Some c -> In c (dict_values d).
Proof.
  intros H. apply dict_get_In in H.
  unfold dict_values. now apply (in_map snd) in H.
Qed.

(* ------------------------------------------------------------------ *)
(** ** Truthiness *)

Lemma truthy_int_or (x : option Z) (d : Z) :
  truthy_int x = true -> x = Some (int_or x d) /\ int_or x d <> 0.
Proof.
  unfold int_or. destruct x as [n|]; simpl; [|discriminate].
  destruct (Z.eqb_spec n 0); simpl; [discriminate|]. auto.
Qed.

Lemma truthy_str_or (x : option string) (d : string) :
  truthy_str x = true -> x = Some (str_or x d).
Proof.
  unfold str_or. destruct x as [s|]; simpl; [|discriminate].
  now destruct (String.eqb s "").
Qed.

Lemma falsy_int_or (x : option Z) (d : Z) : truthy_int x = false -> int_or x d = d.
Proof. unfold int_or. now intros ->. Qed.

Lemma falsy_str_or (x : option string) (d : string) :
  truthy_str x = false -> str_or x d = d.
Proof. unfold str_or. now intros ->. Qed.

Ltac run_M :=
  unfold _get_db_char, _parse_icon, bind, names, names_setitem, warn, ret, raise.

(* ------------------------------------------------------------------ *)
(** ** [_parse_icon] on an [int] *)

(** C9: [_parse_icon] applied to an integer returns the [icon_name] of the
    record stored under that id, and raises [ValueError] ("Invalid character
    id ...") exactly when the registry has no record under that id; the state
    is not changed. *)
Theorem parse_icon_int (n : Z) (w : World) :
  (forall char, dict_get n (CHARACTER_NAMES w) = Some char ->
     _parse_icon (inr n) w = (inr (DBChar.icon_name char), w))
  /\ (dict_get n (CHARACTER_NAMES w) = None <->
        exists e, fst (_parse_icon (inr n) w) = inl e)
  /\ (dict_get n (CHARACTER_NAMES w) = None ->
        _parse_icon (inr n) w
        = (inl (ValueError ("Invalid character id " ++ py_str_int n)), w)).
Proof.
  run_M. destruct (dict_get n (CHARACTER_NAMES w)) as [c|] eqn:E; cbn [fst].
  - split; [intros ? H; now inversion H|].
    split; [split; [discriminate | intros [e H]; discriminate] | discriminate].
  - split; [discriminate|].
    split; [split; [eexists; reflexivity | reflexivity] | reflexivity].
Qed.

Lemma parse_icon_int_witness :
  dict_get 10000021 [(10000021, amber)] = Some amber /\
  _parse_icon (inr 10000021) (mkWorld [(10000021, amber)] [])
  = (inr "Ambor", mkWorld [(10000021, amber)] []).
Proof.
  split; [reflexivity|].
  exact (proj1 (parse_icon_int 10000021 (mkWorld [(10000021, amber)] []))
               amber eq_refl).
Defined.

(* ------------------------------------------------------------------ *)
(** ** [_get_db_char], rule by rule *)

Section Rules.
Variables (id : option Z) (name icon element : option string) (rarity : option Z).
Variable w : World.

Let d := CHARACTER_NAMES w.
Let key := _parse_icon_str (str_or icon "").

(** Rule 1: the id is truthy and a key of the dict. *)
Lemma get_db_char_hit (char : DBChar.t) :
  id_hit id d = Some char ->
  _get_db_char id name icon element rarity w = (inr char, w).
Proof. unfold d. run_M. now intros ->. Qed.

(** Rule 2: no id hit, and an icon that contains [genshin]. *)
Lemma get_db_char_icon :
  id_hit id d = None -> recognizable icon = true ->
  _get_db_char id name icon element rarity w =
  match first_where (fun char => String.eqb (DBChar.icon_name char) key)
                    (dict_values d) with
  | Some char => (inr char, w)
  | None =>
      if truthy_int id && truthy_str name && truthy_str icon
         && truthy_str element && truthy_int rarity then
        let char := DBChar.mk (int_or id 0) key (str_or name "")
                              (str_or element "") (int_or rarity 0) true in
        (inr char, mkWorld (dict_setitem (int_or id 0) char d) (warned w))
      else
        (inr (DBChar.mk 0 key key (str_or element "Anemo") (int_or rarity 5) true),
         mkWorld d (warned w ++
           ["Completing data for an unknown character: id=" ++ fmt_int id
            ++ ", icon=" ++ key ++ ", name=" ++ fmt_str name]))
  end.
Proof.
  unfold d, key. run_M. intros -> ->.
  destruct (first_where _ _); [reflexivity|].
  now destruct (truthy_int id && truthy_str name && truthy_str icon
                && truthy_str element && truthy_int rarity).
Qed.

(** Rule 3: no id hit, no such icon, and a truthy name. *)
Lemma get_db_char_name :
  id_hit id d = None -> recognizable icon = false -> truthy_str name = true ->
  _get_db_char id name icon element rarity w =
  match first_where (fun char => String.eqb (DBChar.name char) (str_or name ""))
                    (dict_values d) with
  | Some char => (inr char, w)
  | None =>
      (inr (DBChar.mk 0 (str_or name "") (str_or name "")
                      (str_or element "Anemo") (int_or rarity 5) true),
       mkWorld d (warned w ++
         ["Completing data for a partial character: id=" ++ fmt_int id
          ++ ", name=" ++ fmt_str name]))
  end.
Proof.
  unfold d. run_M. intros -> -> ->.
  now destruct (first_where _ _).
Qed.

(** Rule 4: nothing to go by. *)
Lemma get_db_char_raise :
  id_hit id d = None -> recognizable icon = false -> truthy_str name = false ->
  _get_db_char id name icon element rarity w
  = (inl (ValueError "Character data incomplete"), w).
Proof. unfold d. run_M. now intros -> -> ->. Qed.

End Rules.

(** Case analysis on the rule that answers a call. *)
Ltac by_rule id name icon element rarity w :=
  let H1 := fresh "Hhit" in
  let H2 := fresh "Hicon" in
  let H3 := fresh "Hname" in
  let c := fresh "char" in
  destruct (id_hit id (CHARACTER_NAMES w)) as [c|] eqn:H1;
  [ rewrite (get_db_char_hit id name icon element rarity w c H1)
  | destruct (recognizable icon) eqn:H2;
    [ rewrite (get_db_char_icon id name icon element rarity w H1 H2)
    | destruct (truthy_str name) eqn:H3;
      [ rewrite (get_db_char_name id name icon element rarity w H1 H2 H3)
      | rewrite (get_db_char_raise id name icon element rarity w H1 H2 H3) ] ] ].

(* ------------------------------------------------------------------ *)
(** ** When [_get_db_char] raises *)

Lemma id_hit_None (id : option Z) (d : dict) :
  id_hit id d = None
  <-> truthy_int id = false \/ dict_in (int_or id 0) d = false.
Proof.
  unfold id_hit. rewrite dict_in_get.
  destruct (truthy_int id); split; auto.
  intros [H|H]; [discriminate | exact H].
Qed.

Lemma recognizable_false (icon : option string) :
  recognizable icon = false
  <-> truthy_str icon = false \/ str_in "genshin" (str_or icon "") = false.
Proof. unfold recognizable. apply andb_false_iff. Qed.

(** C4, counterexample: an id is supplied, it is not a key of the registry,
    and there is neither icon nor name: the call raises although an id is
    present. *)
Lemma unknown_id_alone_raises :
  _get_db_char (Some 10000002) None None None None (mkWorld [] [])
  = (inl (ValueError "Character data incomplete"), mkWorld [] []).
Proof. reflexivity. Qed.

(** C4, amended: [_get_db_char] raises [ValueError] ("Character data
    incomplete") if and only if the id is absent, zero or not a key of the
    registry, the icon is absent, empty or without [genshin], and the name is
    absent or empty. It raises nothing else, leaves the state as it was when
    it raises, and returns a record in every other case. *)
Theorem get_db_char_raises_iff (id : option Z) (name icon element : option string)
    (rarity : option Z) (w : World) :
  let r := _get_db_char id name icon element rarity w in
  let nothing_usable :=
    (truthy_int id = false \/ dict_in (int_or id 0) (CHARACTER_NAMES w) = false)
    /\ (truthy_str icon = false \/ str_in "genshin" (str_or icon "") = false)
    /\ truthy_str name = false in
  (fst r = inl (ValueError "Character data incomplete") <-> nothing_usable)
  /\ (forall e, fst r = inl e ->
        e = ValueError "Character data incomplete" /\ snd r = w)
  /\ ((exists char, fst r = inr char) <-> ~ nothing_usable).
Proof.
  cbv zeta. rewrite <- id_hit_None, <- recognizable_false.
  by_rule id name icon element rarity w.
  - cbn [fst snd]. repeat split; try discriminate.
    + intros (H & _); discriminate.
    + intros _ (H & _); discriminate.
    + eauto.
  - destruct (first_where _ _);
      [|destruct (truthy_int id && truthy_str name && truthy_str icon
                  && truthy_str element && truthy_int rarity)];
      cbn [fst snd]; repeat split; try discriminate; eauto;
      try (intros (_ & H & _); discriminate);
      try (intros _ (_ & H & _); discriminate).
  - destruct (first_where _ _); cbn [fst snd]; repeat split;
      try discriminate; eauto;
      try (intros (_ & _ & H); discriminate);
      try (intros _ (_ & _ & H); discriminate).
  - cbn [fst snd]. split; [tauto|]. split.
    + intros e H; now inversion H.
    + split; [intros [c H]; discriminate | intros H; exfalso; apply H; auto].
Qed.

Lemma get_db_char_raises_iff_witness :
  fst (_get_db_char (Some 0) (Some "") (Some "Ayaka") None None
                    (mkWorld [(10000021, amber)] []))
  = inl (ValueError "Character data incomplete").
Proof.
  apply (proj1 (get_db_char_raises_iff (Some 0) (Some "") (Some "Ayaka") None None
                                       (mkWorld [(10000021, amber)] []))).
  split; [now left|]. split; [now right | reflexivity].
Defined.

(* ------------------------------------------------------------------ *)
(** ** Scenario A: an icon alone, unknown to the registry *)

Lemma no_icon_name_first_where (k : string) (d : dict) :
  no_icon_name k d ->
  first_where (fun char => String.eqb (DBChar.icon_name char) k) (dict_values d) = None.
Proof.
  intros H. apply first_where_None. intros c I.
  apply String.eqb_neq. now apply H.
Qed.

Lemma no_name_first_where (n : string) (d : dict) :
  no_name n d ->
  first_where (fun char => String.eqb (DBChar.name char) n) (dict_values d) = None.
Proof.
  intros H. apply first_where_None. intros c I.
  apply String.eqb_neq. now apply H.
Qed.

(** C2, counterexample: the icon of the scenario has no [genshin] in it, so
    rule 2 is skipped, there is no name for rule 3, and the call raises. *)
Lemma scenario_A_bare_icon_raises :
  no_icon_name "Ayaka" [] /\
  _get_db_char None None (Some "UI_AvatarIcon_Ayaka.png") None None (mkWorld [] [])
  = (inl (ValueError "Character data incomplete"), mkWorld [] []) /\
  fst (_get_db_char None None (Some "UI_AvatarIcon_Ayaka.png") None None
                    (mkWorld [] []))
  <> inr (DBChar.mk 0 "Ayaka" "Ayaka" "Anemo" 5 true).
Proof. split; [intros c []|]. split; [reflexivity | discriminate]. Qed.

(** C2, amended: in a registry without a record whose [icon_name] is
    [Ayaka], an input that has only an icon containing [genshin] with key
    [Ayaka] (such as the full icon URL) gives the unregistered record
    (0, Ayaka, Ayaka, Anemo, 5, guessed), leaves the registry as it was and
    adds one warning; the bare icon [UI_AvatarIcon_Ayaka.png] of the scenario
    raises [ValueError] instead. *)
Theorem scenario_A (icon : string) (w : World) :
  no_icon_name "Ayaka" (CHARACTER_NAMES w) ->
  str_in "genshin" icon = true ->
  _parse_icon_str icon = "Ayaka" ->
  _get_db_char None None (Some icon) None None w
  = (inr (DBChar.mk 0 "Ayaka" "Ayaka" "Anemo" 5 true),
     mkWorld (CHARACTER_NAMES w)
       (warned w ++
        ["Completing data for an unknown character: id=None, icon=Ayaka, name=None"]))
  /\ _get_db_char None None (Some "UI_AvatarIcon_Ayaka.png") None None w
     = (inl (ValueError "Character data incomplete"), w).
Proof.
  intros Hno Hin Hkey. split; [|reflexivity].
  assert (Hs : truthy_str (Some icon) = true).
  { destruct icon; [discriminate Hin | reflexivity]. }
  assert (Ho : str_or (Some icon) "" = icon) by (unfold str_or; now rewrite Hs).
  rewrite get_db_char_icon.
  - rewrite Ho, Hkey, (no_icon_name_first_where _ _ Hno). reflexivity.
  - reflexivity.
  - unfold recognizable. now rewrite Hs, Ho, Hin.
Qed.

Lemma scenario_A_witness :
  _get_db_char None None (Some ayaka_url) None None (mkWorld [(10000021, amber)] [])
  = (inr (DBChar.mk 0 "Ayaka" "Ayaka" "Anemo" 5 true),
     mkWorld [(10000021, amber)]
       ["Completing data for an unknown character: id=None, icon=Ayaka, name=None"]).
Proof.
  apply (scenario_A ayaka_url (mkWorld [(10000021, amber)] [])).
  - intros c [<-|[]]. discriminate.
  - reflexivity.
  - reflexivity.
Defined.

(* ------------------------------------------------------------------ *)
(** ** Scenario B: an unknown character with all five fields *)

(** C3, counterexample: with the bare icon of the scenario rule 2 is
    skipped; rule 3 answers with an unregistered record of id 0 under the
    name, nothing is inserted, and the later call with the id alone raises. *)
Lemma scenario_B_bare_icon_not_registered :
  dict_get 10000002 [] = None /\ no_icon_name "Ayaka" [] /\
  _get_db_char (Some 10000002) (Some "Kamisato Ayaka")
               (Some "UI_AvatarIcon_Ayaka.png") (Some "Cryo") (Some 5)
               (mkWorld [] [])
  = (inr (DBChar.mk 0 "Kamisato Ayaka" "Kamisato Ayaka" "Cryo" 5 true),
     mkWorld []
       ["Completing data for a partial character: id=10000002, name=Kamisato Ayaka"])
  /\ fst (_get_db_char (Some 10000002) None None None None
            (snd (_get_db_char (Some 10000002) (Some "Kamisato Ayaka")
                    (Some "UI_AvatarIcon_Ayaka.png") (Some "Cryo") (Some 5)
                    (mkWorld [] []))))
     = inl (ValueError "Character data incomplete").
Proof. split; [reflexivity|]. split; [intros c []|]. split; reflexivity. Qed.

(** C3, amended: in a registry with no record under 10000002 and none with
    [icon_name] [Ayaka], the input (10000002, Kamisato Ayaka, icon, Cryo, 5),
    where the icon contains [genshin] and has key [Ayaka] (such as the full
    icon URL), appends the record (10000002, Ayaka, Kamisato Ayaka, Cryo, 5,
    guessed) to the registry under 10000002 and returns it, without a
    warning; a following call with the id alone returns that same record and
    changes nothing. *)
Theorem scenario_B (icon : string) (w : World) :
  dict_get 10000002 (CHARACTER_NAMES w) = None ->
  no_icon_name "Ayaka" (CHARACTER_NAMES w) ->
  str_in "genshin" icon = true ->
  _parse_icon_str icon = "Ayaka" ->
  let w1 := mkWorld (CHARACTER_NAMES w ++ [(10000002, ayaka_guessed)])%list (warned w) in
  _get_db_char (Some 10000002) (Some "Kamisato Ayaka") (Some icon)
               (Some "Cryo") (Some 5) w
  = (inr ayaka_guessed, w1)
  /\ _get_db_char (Some 10000002) None None None None w1 = (inr ayaka_guessed, w1).
Proof.
  intros Hget Hno Hin Hkey w1.
  assert (Hs : truthy_str (Some icon) = true).
  { destruct icon; [discriminate Hin | reflexivity]. }
  assert (Ho : str_or (Some icon) "" = icon) by (unfold str_or; now rewrite Hs).
  split.
  - rewrite get_db_char_icon.
    + rewrite Ho, Hkey, (no_icon_name_first_where _ _ Hno), Hs.
      cbn [truthy_int truthy_str Z.eqb negb andb String.eqb].
      cbv zeta. unfold w1.
      change (int_or (Some 10000002) 0) with 10000002.
      now rewrite (dict_setitem_new _ _ _ Hget).
    + exact Hget.
    + unfold recognizable. now rewrite Hs, Ho, Hin.
  - apply get_db_char_hit. unfold id_hit.
    change (truthy_int (Some 10000002)) with true. cbv iota.
    change (int_or (Some 10000002) 0) with 10000002.
    unfold w1; cbn [CHARACTER_NAMES]. rewrite dict_get_app, Hget.
    reflexivity.
Qed.

Lemma scenario_B_witness :
  _get_db_char (Some 10000002) (Some "Kamisato Ayaka") (Some ayaka_url)
               (Some "Cryo") (Some 5) (mkWorld [(10000021, amber)] [])
  = (inr ayaka_guessed,
     mkWorld [(10000021, amber); (10000002, ayaka_guessed)] []).
Proof.
  apply (scenario_B ayaka_url (mkWorld [(10000021, amber)] [])).
  - reflexivity.
  - intros c [<-|[]]. discriminate.
  - reflexivity.
  - reflexivity.
Defined.

(* ------------------------------------------------------------------ *)
(** ** Falsy fields *)

Lemma id_hit_Some_In (id : option Z) (d : dict) (char : DBChar.t) :
  id_hit id d = Some char -> In char (dict_values d).
Proof.
  unfold id_hit. destruct (truthy_int id); [|discriminate].
  apply dict_get_values.
Qed.

Lemma id_hit_falsy (id : option Z) (d : dict) :
  truthy_int id = false -> id_hit id d = None.
Proof. unfold id_hit. now intros ->. Qed.

Lemma recognizable_falsy (icon : option string) :
  truthy_str icon = false -> recognizable icon = false.
Proof. unfold recognizable. now intros ->. Qed.

(** A record that [_get_db_char] returns and that was not in the registry
    before the call was built by the call, with the defaults applied. *)
Lemma get_db_char_synthesized (id : option Z) (name icon element : option string)
    (rarity : option Z) (w w' : World) (char : DBChar.t) :
  _get_db_char id name icon element rarity w = (inr char, w') ->
  ~ In char (dict_values (CHARACTER_NAMES w)) ->
  DBChar.guessed char = true
  /\ DBChar.element char = str_or element "Anemo"
  /\ DBChar.rarity char = int_or rarity 5.
Proof.
  by_rule id name icon element rarity w.
  - intros H N. inversion H; subst. exfalso. eauto using id_hit_Some_In.
  - destruct (first_where _ _) as [c|] eqn:F.
    + intros H N. inversion H; subst. apply first_where_Some in F. tauto.
    + destruct (truthy_int id && truthy_str name && truthy_str icon
                && truthy_str element && truthy_int rarity) eqn:C;
        cbv zeta; intros H _; inversion H; subst;
        cbn [DBChar.guessed DBChar.element DBChar.rarity]; [|auto].
      apply andb_true_iff in C as [C Tr]. apply andb_true_iff in C as [_ Te].
      destruct element as [e|]; [|discriminate Te].
      destruct rarity as [r|]; [|discriminate Tr].
      unfold str_or, int_or. rewrite Te, Tr. auto.
  - destruct (first_where _ _) as [c|] eqn:F.
    + intros H N. inversion H; subst. apply first_where_Some in F. tauto.
    + intros H _; inversion H; subst.
      cbn [DBChar.guessed DBChar.element DBChar.rarity]. auto.
  - discriminate.
Qed.

(** C10: falsy fields count as absent. With id 0 the call answers as with
    no id, whatever the registry holds under 0; an empty icon or name counts
    as no icon or name; an input with nothing but falsy id, icon and name
    raises [ValueError] ("Character data incomplete"), through
    [_get_db_char] and through the construction of a [BaseCharacter]; and a
    record built by the call has element [Anemo] for an absent or empty
    element and rarity 5 for an absent or zero rarity. *)
Theorem falsy_fields_are_absent (id : option Z) (name icon element : option string)
    (rarity : option Z) (w : World) :
  (fst (_get_db_char (Some 0) name icon element rarity w)
     = fst (_get_db_char None name icon element rarity w)
   /\ CHARACTER_NAMES (snd (_get_db_char (Some 0) name icon element rarity w))
     = CHARACTER_NAMES w)
  /\ _get_db_char id name (Some "") element rarity w
     = _get_db_char id name None element rarity w
  /\ (fst (_get_db_char id (Some "") icon element rarity w)
        = fst (_get_db_char id None icon element rarity w)
      /\ CHARACTER_NAMES (snd (_get_db_char id (Some "") icon element rarity w))
        = CHARACTER_NAMES (snd (_get_db_char id None icon element rarity w)))
  /\ (truthy_int id = false -> truthy_str icon = false -> truthy_str name = false ->
      _get_db_char id name icon element rarity w
        = (inl (ValueError "Character data incomplete"), w)
      /\ forall collab,
         BaseCharacter.new (Values.mk id name element rarity icon collab) w
         = (inl (ValueError "Character data incomplete"), w))
  /\ (forall char w',
      _get_db_char id name icon element rarity w = (inr char, w') ->
      ~ In char (dict_values (CHARACTER_NAMES w)) ->
      DBChar.guessed char = true
      /\ (truthy_str element = false -> DBChar.element char = "Anemo")
      /\ (truthy_int rarity = false -> DBChar.rarity char = 5)).
Proof.
  split; [|split; [|split; [|split]]].
  - run_M. cbn [id_hit truthy_int Z.eqb negb andb].
    destruct (recognizable icon).
    + destruct (first_where _ _); split; reflexivity.
    + destruct (truthy_str name); [|split; reflexivity].
      destruct (first_where _ _); split; reflexivity.
  - reflexivity.
  - run_M. destruct (id_hit id (CHARACTER_NAMES w)); [split; reflexivity|].
    destruct (recognizable icon); [|split; reflexivity].
    rewrite !andb_false_r. cbn [truthy_str String.eqb negb andb].
    destruct (first_where _ _); split; reflexivity.
  - intros Hi Hc Hn. split.
    + apply get_db_char_raise; auto using id_hit_falsy, recognizable_falsy.
    + intros collab. unfold BaseCharacter.new, BaseCharacter.__autocomplete.
      unfold bind at 1 2. cbn [Values.id Values.name Values.icon Values.element
                                Values.rarity].
      rewrite get_db_char_raise; auto using id_hit_falsy, recognizable_falsy.
  - intros char w' H N.
    destruct (get_db_char_synthesized _ _ _ _ _ _ _ _ H N) as (G & E & R).
    split; [exact G|]. split.
    + intros F. now rewrite E, falsy_str_or.
    + intros F. now rewrite R, falsy_int_or.
Qed.

Lemma falsy_fields_are_absent_witness :
  _get_db_char (Some 0) (Some "") (Some "") (Some "") (Some 0)
               (mkWorld [(0, amber)] [])
  = (inl (ValueError "Character data incomplete"), mkWorld [(0, amber)] [])
  /\ DBChar.element (DBChar.mk 0 "Hero" "Hero" "Anemo" 5 true) = "Anemo".
Proof.
  pose proof (falsy_fields_are_absent (Some 0) (Some "") (Some "") (Some "") (Some 0)
                (mkWorld [(0, amber)] [])) as (_ & _ & _ & H & _).
  split; [exact (proj1 (H eq_refl eq_refl eq_refl))|].
  pose proof (falsy_fields_are_absent None (Some "Hero") None (Some "") (Some 0)
                (mkWorld [(0, amber)] [])) as (_ & _ & _ & _ & D).
  refine (proj1 (proj2 (D _ _ eq_refl _)) eq_refl).
  intros [E|[]]. discriminate E.
Defined.

(* ------------------------------------------------------------------ *)
(** ** The registry under [_get_db_char] *)

(** What one call does to the registry: nothing, or one record appended
    under its own id, which is not zero and was not a key. *)
Lemma get_db_char_registry (id : option Z) (name icon element : option string)
    (rarity : option Z) (w : World) :
  let r := _get_db_char id name icon element rarity w in
  let d := CHARACTER_NAMES w in
  let d' := CHARACTER_NAMES (snd r) in
  (d' = d /\ (forall char, fst r = inr char ->
                In char (dict_values d) \/ DBChar.id char = 0))
  \/ (exists char,
        fst r = inr char /\ DBChar.id char <> 0
        /\ dict_get (DBChar.id char) d = None
        /\ d' = (d ++ [(DBChar.id char, char)])%list).
Proof.
  cbv zeta. by_rule id name icon element rarity w; cbn [fst snd].
  - left. split; [reflexivity|]. intros c H; inversion H; subst.
    left. eauto using id_hit_Some_In.
  - destruct (first_where _ _) as [c|] eqn:F; cbn [fst snd].
    + left. split; [reflexivity|]. intros c' H; inversion H; subst.
      left. now apply first_where_Some in F.
    + destruct (truthy_int id && truthy_str name && truthy_str icon
                && truthy_str element && truthy_int rarity) eqn:C;
        cbv zeta; cbn [fst snd CHARACTER_NAMES].
      * right. eexists. split; [reflexivity|]. cbn [DBChar.id].
        assert (Ti : truthy_int id = true).
        { repeat (apply andb_true_iff in C as [C _]). exact C. }
        destruct (truthy_int_or id 0 Ti) as [_ Nz].
        assert (G : dict_get (int_or id 0) (CHARACTER_NAMES w) = None).
        { unfold id_hit in Hhit. now rewrite Ti in Hhit. }
        split; [exact Nz|]. split; [exact G|].
        now apply dict_setitem_new.
      * left. split; [reflexivity|]. intros c H; inversion H; subst. now right.
  - destruct (first_where _ _) as [c|] eqn:F; cbn [fst snd CHARACTER_NAMES].
    + left. split; [reflexivity|]. intros c' H; inversion H; subst.
      left. now apply first_where_Some in F.
    + left. split; [reflexivity|]. intros c H; inversion H; subst. now right.
  - left. split; [reflexivity | discriminate].
Qed.

Lemma dict_wf_append (d : dict) (char : DBChar.t) :
  dict_wf d -> dict_get (DBChar.id char) d = None ->
  dict_wf (d ++ [(DBChar.id char, char)])%list.
Proof.
  intros [N F] G. split.
  - unfold dict_keys. rewrite map_app. cbn [map fst].
    apply NoDup_app; [exact N | repeat constructor; intros [] | ].
    intros k I [<-|[]]. now apply dict_get_None_keys in G.
  - apply Forall_app. split; [exact F | now repeat constructor].
Qed.

Lemma dict_wf_ids_unique (d : dict) : dict_wf d -> ids_unique d.
Proof.
  intros [N F]. unfold ids_unique, dict_values.
  replace (map DBChar.id (map snd d)) with (dict_keys d); [exact N|].
  unfold dict_keys. rewrite map_map.
  apply map_ext_in. intros kv I.
  rewrite Forall_forall in F. symmetry. now apply F.
Qed.

Lemma parse_icon_state (icon : string + Z) (w : World) :
  snd (_parse_icon icon w) = w.
Proof.
  destruct icon as [s|n]; [reflexivity|].
  run_M. now destruct (dict_get n (CHARACTER_NAMES w)).
Qed.

(** The construction of a [BaseCharacter] touches the state only through
    its call of [_get_db_char]. *)
Lemma new_state (values : Values.t) (w : World) :
  snd (BaseCharacter.new values w)
  = snd (_get_db_char (Values.id values) (Values.icon values) (Values.name values)
                      (Values.element values) (Values.rarity values) w).
Proof.
  unfold BaseCharacter.new, BaseCharacter.__autocomplete, bind, ret.
  destruct (_get_db_char _ _ _ _ _ w) as [[e|char] w']; [reflexivity|].
  cbn [Values.id Values.name Values.icon Values.element Values.rarity
       Values.collab Values.item snd].
  destruct (truthy_str (Values.icon values)) eqn:T.
  - destruct (truthy_str_or _ "" T) as [].
    destruct (Values.icon values) as [i|]; [|discriminate].
    destruct (negb (str_in "genshin" _) && negb (DBChar.id char =? 0));
      cbn [Values.id Values.name Values.icon Values.element Values.rarity
           Values.collab Values.item];
      destruct (DBChar.rarity char >? 100);
      [reflexivity| |reflexivity|]; now destruct (DBChar.id char =? 10000062).
  - cbn [Values.id Values.name Values.icon Values.element Values.rarity
         Values.collab Values.item].
    destruct (DBChar.rarity char >? 100);
      [reflexivity|]; now destruct (DBChar.id char =? 10000062).
Qed.

Section Registry.
Variable init : dict.
Hypothesis init_wf : dict_wf init.

Lemma reachable_wf (w : World) : reachable init w -> dict_wf (CHARACTER_NAMES w).
Proof.
  induction 1 as [log | w id name icon element rarity _ IH
                  | w icon _ IH | w values _ IH].
  - exact init_wf.
  - destruct (get_db_char_registry id name icon element rarity w)
      as [[-> _] | (c & _ & _ & G & ->)]; [exact IH | now apply dict_wf_append].
  - now rewrite parse_icon_state.
  - rewrite new_state.
    destruct (get_db_char_registry (Values.id values) (Values.icon values)
                (Values.name values) (Values.element values)
                (Values.rarity values) w)
      as [[-> _] | (c & _ & _ & G & ->)]; [exact IH | now apply dict_wf_append].
Qed.

(** C7: in every reachable state no two records of the registry share an
    id. A call of [_get_db_char] leaves the registry as it was, and always so
    when it raises or returns a record of id 0, or it appends exactly one
    record, under that record's id, which was not a key before; every record
    that was stored is still stored under its key afterwards. *)
Theorem registry_ids_unique :
  (forall w, reachable init w -> ids_unique (CHARACTER_NAMES w))
  /\ (forall w id name icon element rarity,
        let r := _get_db_char id name icon element rarity w in
        let d := CHARACTER_NAMES w in
        let d' := CHARACTER_NAMES (snd r) in
        (d' = d
         \/ exists char, fst r = inr char
                         /\ dict_in (DBChar.id char) d = false
                         /\ d' = (d ++ [(DBChar.id char, char)])%list)
        /\ (forall e, fst r = inl e -> d' = d)
        /\ (forall char, fst r = inr char -> DBChar.id char = 0 -> d' = d)
        /\ (forall k char, dict_get k d = Some char -> dict_get k d' = Some char)).
Proof.
  split.
  - intros w R. apply dict_wf_ids_unique, reachable_wf, R.
  - intros w id name icon element rarity. cbv zeta.
    destruct (get_db_char_registry id name icon element rarity w)
      as [[E _] | (c & Hc & Nz & G & E)]; rewrite E.
    + repeat split; auto.
    + split; [right; exists c; repeat split; auto; now apply dict_in_get|].
      split; [intros e He; congruence|].
      split; [intros c' Hc' Z0; congruence|].
      intros k c' Hk. now rewrite dict_get_app, Hk.
Qed.

End Registry.

Lemma registry_ids_unique_witness :
  dict_wf [(10000021, amber)] /\
  ids_unique (CHARACTER_NAMES
    (snd (_get_db_char (Some 10000002) (Some "Kamisato Ayaka") (Some ayaka_url)
                       (Some "Cryo") (Some 5) (mkWorld [(10000021, amber)] [])))).
Proof.
  assert (W : dict_wf [(10000021, amber)]).
  { split; repeat constructor; simpl; tauto. }
  split; [exact W|].
  apply (proj1 (registry_ids_unique [(10000021, amber)] W)).
  apply reach_get_db_char, reach_init.
Defined.

(* ------------------------------------------------------------------ *)
(** ** The root validator *)

(** What the validator makes of the record that [_get_db_char] returns. *)
Lemma new_fields (values : Values.t) (w w' : World) (self : BaseCharacter.t) :
  BaseCharacter.new values w = (inr self, w') ->
  exists char,
    _get_db_char (Values.id values) (Values.icon values) (Values.name values)
                 (Values.element values) (Values.rarity values) w
    = (inr char, w')
    /\ BaseCharacter.id self = DBChar.id char
    /\ BaseCharacter.name self = DBChar.name char
    /\ BaseCharacter.element self = DBChar.element char
    /\ BaseCharacter.rarity self
       = (if DBChar.rarity char >? 100 then DBChar.rarity char - 100
          else DBChar.rarity char)
    /\ BaseCharacter.collab self
       = (if DBChar.rarity char >? 100 then true
          else if DBChar.id char =? 10000062 then true
          else match Values.collab values with Some b => b | None => false end).
Proof.
  unfold BaseCharacter.new, BaseCharacter.__autocomplete, bind, ret.
  destruct (_get_db_char _ _ _ _ _ w) as [[e|char] w1]; [discriminate|].
  cbn [Values.id Values.name Values.icon Values.element Values.rarity
       Values.collab Values.item].
  intros H. exists char.
  destruct (truthy_str (Values.icon values)) eqn:T.
  - destruct (Values.icon values) as [i|]; [|discriminate].
    destruct (negb (str_in "genshin" _) && negb (DBChar.id char =? 0));
      cbn [Values.id Values.name Values.icon Values.element Values.rarity
           Values.collab Values.item] in H;
      destruct (DBChar.rarity char >? 100);
      try destruct (DBChar.id char =? 10000062);
      cbn [BaseCharacter.of_values Values.id Values.name Values.icon
           Values.element Values.rarity Values.collab] in H;
      inversion H; subst; cbn; repeat split; reflexivity.
  - cbn [Values.id Values.name Values.icon Values.element Values.rarity
         Values.collab Values.item] in H.
    destruct (DBChar.rarity char >? 100);
      try destruct (DBChar.id char =? 10000062);
      cbn [BaseCharacter.of_values Values.id Values.name Values.icon
           Values.element Values.rarity Values.collab] in H;
      inversion H; subst; cbn; repeat split; reflexivity.
Qed.

(** The construction returns whenever [_get_db_char] does. *)
Lemma new_returns (values : Values.t) (w w' : World) (char : DBChar.t) :
  _get_db_char (Values.id values) (Values.icon values) (Values.name values)
               (Values.element values) (Values.rarity values) w
  = (inr char, w') ->
  exists self, BaseCharacter.new values w = (inr self, w').
Proof.
  intros G.
  unfold BaseCharacter.new, BaseCharacter.__autocomplete, bind, ret.
  rewrite G.
  cbn [Values.id Values.name Values.icon Values.element Values.rarity
       Values.collab Values.item].
  destruct (truthy_str (Values.icon values)) eqn:T.
  - destruct (Values.icon values) as [i|]; [|discriminate].
    destruct (negb (str_in "genshin" _) && negb (DBChar.id char =? 0));
      cbn [Values.id Values.name Values.icon Values.element Values.rarity
           Values.collab Values.item];
      destruct (DBChar.rarity char >? 100);
      try destruct (DBChar.id char =? 10000062);
      eexists; reflexivity.
  - cbn [Values.id Values.name Values.icon Values.element Values.rarity
         Values.collab Values.item].
    destruct (DBChar.rarity char >? 100);
      try destruct (DBChar.id char =? 10000062);
      eexists; reflexivity.
Qed.

(** C6, counterexample: the registry holds Kamisato Ayaka with rarity 5
    under an id that is not 10000062; the raw input gives her id and
    [collab=True]. The rarity is not above 100 and the id is not Aloy's, so
    the validator leaves [collab] as it was given, and the character has
    [collab] true. *)
Lemma supplied_collab_is_kept :
  let w := mkWorld [(10000002, ayaka)] [] in
  exists self,
    BaseCharacter.new (Values.mk (Some 10000002) None None None None (Some true)) w
    = (inr self, w)
    /\ BaseCharacter.rarity self = 5
    /\ BaseCharacter.id self <> 10000062
    /\ BaseCharacter.collab self = true
    /\ BaseCharacter.collab self <> false.
Proof.
  cbv zeta. eexists. split; [reflexivity|].
  cbn. repeat split; discriminate.
Qed.

(** C6, amended: after the construction, with [char] the record whose
    fields were adopted: if its rarity is above 100 the final rarity is 100
    less and [collab] is true; otherwise, if the id is 10000062, [collab] is
    true and the rarity is kept; otherwise the rarity is kept and [collab]
    is what the raw input gave for it, false when the input has no [collab].
    So 105 gives rarity 5 with [collab], and 5 with another id and no
    [collab] in the input gives no [collab]. The construction returns such a
    character whenever [_get_db_char] returns a record. *)
Theorem variant_decoding (values : Values.t) (w : World) :
  let resolve :=
    _get_db_char (Values.id values) (Values.icon values) (Values.name values)
                 (Values.element values) (Values.rarity values) w in
  (forall char w', resolve = (inr char, w') ->
     exists self, BaseCharacter.new values w = (inr self, w'))
  /\
  forall self w', BaseCharacter.new values w = (inr self, w') ->
  exists char,
    resolve = (inr char, w')
    /\ BaseCharacter.id self = DBChar.id char
    /\ (DBChar.rarity char > 100 ->
          BaseCharacter.rarity self = DBChar.rarity char - 100
          /\ BaseCharacter.collab self = true)
    /\ (DBChar.rarity char <= 100 -> BaseCharacter.id self = 10000062 ->
          BaseCharacter.rarity self = DBChar.rarity char
          /\ BaseCharacter.collab self = true)
    /\ (DBChar.rarity char <= 100 -> BaseCharacter.id self <> 10000062 ->
          BaseCharacter.rarity self = DBChar.rarity char
          /\ (Values.collab values = None -> BaseCharacter.collab self = false)
          /\ (forall b, Values.collab values = Some b ->
                        BaseCharacter.collab self = b))
    /\ (DBChar.rarity char = 105 ->
          BaseCharacter.rarity self = 5 /\ BaseCharacter.collab self = true)
    /\ (DBChar.rarity char = 5 -> BaseCharacter.id self <> 10000062 ->
        Values.collab values = None ->
          BaseCharacter.rarity self = 5 /\ BaseCharacter.collab self = false).
Proof.
  cbv zeta. split; [intros char w' G; exact (new_returns _ _ _ _ G)|].
  intros self w' H.
  destruct (new_fields _ _ _ _ H) as (char & G & Hid & _ & _ & Hr & Hc).
  exists char. split; [exact G|]. split; [exact Hid|].
  rewrite Hr, Hc, Hid. clear.
  destruct (Values.collab values) as [b0|];
    destruct (Z.gtb_spec (DBChar.rarity char) 100) as [L|L];
    destruct (Z.eqb_spec (DBChar.id char) 10000062) as [E|E];
    repeat split; intros; try lia; try congruence; auto.
Qed.

Lemma variant_decoding_witness :
  exists self w',
    BaseCharacter.new (Values.mk None None None (Some 105) (Some "Aloy") None)
                      (mkWorld [] []) = (inr self, w')
    /\ BaseCharacter.rarity self = 5 /\ BaseCharacter.collab self = true.
Proof.
  eexists. eexists. split; [reflexivity|].
  destruct (proj2 (variant_decoding
                     (Values.mk None None None (Some 105) (Some "Aloy") None)
                     (mkWorld [] [])) _ _ eq_refl)
    as (char & G & _ & _ & _ & _ & H & _).
  apply H. inversion G. reflexivity.
Defined.

(** C1: the registry holds Kamisato Ayaka, and [_get_db_char] called with
    that name in the role of the name finds her record; the construction of a
    [BaseCharacter] from the same name alone raises, because the validator
    passes the icon where the name belongs and the name where the icon
    belongs. *)
Theorem name_only_construction_raises :
  let w := mkWorld [(10000002, ayaka)] [] in
  _get_db_char None (Some "Kamisato Ayaka") None None None w = (inr ayaka, w)
  /\ BaseCharacter.new (Values.mk None (Some "Kamisato Ayaka") None None None None) w
     = (inl (ValueError "Character data incomplete"), w).
Proof. split; reflexivity. Qed.

(* ------------------------------------------------------------------ *)
(** ** The derived URLs *)

Lemma append_assoc (a b c : string) : (a ++ b) ++ c = a ++ b ++ c.
Proof. induction a as [|x a IH]; simpl; [reflexivity | now rewrite IH]. Qed.

Lemma append_inv_tail (s t e : string) : s ++ e = t ++ e -> s = t.
Proof.
  revert t; induction s as [|x s IH]; intros [|y t] H; simpl in H.
  - reflexivity.
  - apply (f_equal String.length) in H. simpl in H. rewrite length_app in H. lia.
  - apply (f_equal String.length) in H. simpl in H. rewrite length_app in H. lia.
  - inversion H; subst. f_equal. now apply IH.
Qed.

Lemma endswith_intro (a p : string) (s : string) : s = a ++ p -> endswith s p = true.
Proof. intros ->. apply endswith_app. Qed.

(** A common tail can be dropped from both sides of [endswith]. *)
Lemma endswith_tail (s p e : string) :
  endswith (s ++ e) (p ++ e) = endswith s p.
Proof.
  destruct (endswith s p) eqn:E.
  - apply endswith_inv in E as [a ->].
    apply (endswith_intro a). apply append_assoc.
  - destruct (endswith (s ++ e) (p ++ e)) eqn:E'; [|reflexivity].
    apply endswith_inv in E' as [a H].
    rewrite <- append_assoc in H. apply append_inv_tail in H.
    rewrite (endswith_intro a p s H) in E. discriminate.
Qed.

(** A suffix of [a ++ k] lies within [k], or starts with a piece of [a]. *)
Lemma endswith_app_cases (a k p : string) :
  endswith (a ++ k) p = true ->
  endswith k p = true
  \/ exists a2, a2 <> "" /\ endswith a a2 = true /\ p = a2 ++ k.
Proof.
  induction a as [|c a IH]; [now left|].
  change (String c a ++ k) with (String c (a ++ k)). cbn [endswith].
  intros H. apply orb_true_iff in H as [H|H].
  - apply String.eqb_eq in H. right. exists (String c a).
    split; [discriminate|].
    split; [exact (endswith_refl (String c a)) | now rewrite <- H].
  - destruct (IH H) as [L|(a2 & N & E & P)]; [now left|].
    right. exists a2. split; [exact N|]. split; [|exact P].
    rewrite E. apply orb_true_r.
Qed.

(** C8, counterexample: a character built from the icon of a 2x image: the
    icon contains [genshin] and is kept, its key is [Ayaka@2x], and the
    [side_icon] URL has [@2x] right before [.png]. *)
Lemma side_icon_with_scale_suffix :
  exists self w',
    BaseCharacter.new
      (Values.mk None None None None
         (Some (ICON_BASE ++ "character_image/UI_AvatarIcon_Ayaka@2x.png")) None)
      (mkWorld [] []) = (inr self, w')
    /\ BaseCharacter.side_icon self
       = ICON_BASE ++ "character_side_icon/UI_AvatarIcon_Side_Ayaka@2x.png"
    /\ endswith (BaseCharacter.side_icon self) "@2x.png" = true.
Proof. eexists. eexists. split; [reflexivity|]. split; reflexivity. Qed.

(** C8, amended: for every [BaseCharacter], with [key] the key of its icon,
    [image] is the base, [character_image/UI_AvatarIcon_], the key, [@2x] and
    [.png], and [side_icon] is the base,
    [character_side_icon/UI_AvatarIcon_Side_], the key and [.png] with
    nothing in between; so both begin with the base and end with [.png],
    [image] has [@2x] right before [.png], and [side_icon] has it there
    exactly when the key itself ends with [@2x]. *)
Theorem derived_urls (self : BaseCharacter.t) :
  let key := _parse_icon_str (BaseCharacter.icon self) in
  BaseCharacter.image self
    = ICON_BASE ++ "character_image/UI_AvatarIcon_" ++ key ++ "@2x" ++ ".png"
  /\ BaseCharacter.side_icon self
    = ICON_BASE ++ "character_side_icon/UI_AvatarIcon_Side_" ++ key ++ ".png"
  /\ startswith (BaseCharacter.image self) ICON_BASE = true
  /\ endswith (BaseCharacter.image self) ".png" = true
  /\ endswith (BaseCharacter.image self) "@2x.png" = true
  /\ startswith (BaseCharacter.side_icon self) ICON_BASE = true
  /\ endswith (BaseCharacter.side_icon self) ".png" = true
  /\ (endswith (BaseCharacter.side_icon self) "@2x.png" = true
      <-> endswith key "@2x" = true).
Proof.
  intros key.
  assert (Hi : BaseCharacter.image self
    = ICON_BASE ++ "character_image/UI_AvatarIcon_" ++ key ++ "@2x" ++ ".png")
    by reflexivity.
  assert (Hs : BaseCharacter.side_icon self
    = ICON_BASE ++ "character_side_icon/UI_AvatarIcon_Side_" ++ key ++ ".png")
    by reflexivity.
  split; [exact Hi|]. split; [exact Hs|]. rewrite Hi, Hs. clear Hi Hs.
  split; [apply startswith_app|].
  split; [rewrite <- !append_assoc; apply endswith_app|].
  split.
  { change ("@2x" ++ ".png") with "@2x.png".
    rewrite <- !append_assoc. apply endswith_app. }
  split; [apply startswith_app|].
  split; [rewrite <- !append_assoc; apply endswith_app|].
  rewrite <- !append_assoc.
  change "@2x.png" with ("@2x" ++ ".png"). rewrite endswith_tail.
  split.
  - intros H. apply endswith_app_cases in H as [H|(a2 & N & E & P)]; [exact H|].
    exfalso.
    destruct a2 as [|c1 a2]; [now apply N|].
    inversion P as [[Hc P1]]; subst c1.
    destruct a2 as [|c2 a2]; [vm_compute in E; discriminate|].
    inversion P1 as [[Hc P2]]; subst c2.
    destruct a2 as [|c3 a2]; [vm_compute in E; discriminate|].
    inversion P2 as [[Hc P3]]; subst c3.
    destruct a2 as [|c4 a2]; [vm_compute in E; discriminate|].
    discriminate P3.
  - intros H. apply endswith_inv in H as [a ->].
    rewrite <- append_assoc. apply endswith_app.
Qed.

(* ================================================================== *)
(** * Further properties *)

(* ------------------------------------------------------------------ *)
(** ** What a match of the icon pattern looks like *)

Lemma capture_tail_sound (r g : string) :
  capture_tail r = Some g ->
  exists c b, r = g ++ String c ("png" ++ b)
              /\ is_newline c = false /\ no_newline g = true.
Proof.
  revert g; induction r as [|c r IH]; intros g H; cbn [capture_tail] in H;
    [discriminate|].
  destruct (is_newline c) eqn:N; [discriminate|].
  destruct (capture_tail r) as [g'|] eqn:E.
  - inversion H; subst g. destruct (IH _ eq_refl) as (c' & b & -> & N' & G).
    exists c', b. split; [reflexivity|]. split; [exact N'|].
    unfold no_newline in *. cbn [str_forall]. now rewrite N, G.
  - unfold startswith in H.
    destruct (strip_prefix "png" r) as [b|] eqn:P; [|discriminate].
    inversion H; subst g. apply strip_prefix_Some in P. subst r.
    exists c, b. auto.
Qed.

Lemma match_here_sound (s g : string) :
  match_here s = Some g ->
  exists side c b,
    s = "UI_AvatarIcon" ++ side ++ "_" ++ g ++ String c ("png" ++ b)
    /\ (side = "" \/ side = "_Side")
    /\ is_newline c = false /\ no_newline g = true.
Proof.
  unfold match_here, match_underscore_tail. intros H.
  destruct (strip_prefix "UI_AvatarIcon" s) as [r0|] eqn:E0; [|discriminate].
  apply strip_prefix_Some in E0. subst s.
  assert (plain : forall r, match strip_prefix "_" r with
                            | Some r' => capture_tail r'
                            | None => None
                            end = Some g ->
                  exists c b, r = "_" ++ g ++ String c ("png" ++ b)
                              /\ is_newline c = false /\ no_newline g = true).
  { intros r Hr. destruct (strip_prefix "_" r) as [r'|] eqn:E; [|discriminate].
    apply strip_prefix_Some in E. subst r.
    destruct (capture_tail_sound _ _ Hr) as (c & b & -> & N & G).
    now exists c, b. }
  destruct (strip_prefix "_Side" r0) as [r1|] eqn:E1.
  - destruct (match strip_prefix "_" r1 with
              | Some r' => capture_tail r'
              | None => None
              end) as [g1|] eqn:E2.
    + inversion H; subst g1. apply strip_prefix_Some in E1. subst r0.
      destruct (plain _ E2) as (c & b & -> & N & G).
      exists "_Side", c, b. auto.
    + destruct (plain _ H) as (c & b & -> & N & G).
      exists "", c, b. auto.
  - destruct (plain _ H) as (c & b & -> & N & G).
    exists "", c, b. auto.
Qed.

Lemma re_search_shape (x g : string) :
  re_search x = Some g ->
  exists a side c b,
    x = a ++ "UI_AvatarIcon" ++ side ++ "_" ++ g ++ String c ("png" ++ b)
    /\ (side = "" \/ side = "_Side")
    /\ is_newline c = false /\ no_newline g = true.
Proof.
  induction x as [|ch x IH]; intros H.
  - vm_compute in H. discriminate.
  - cbn [re_search] in H.
    destruct (match_here (String ch x)) as [g'|] eqn:E.
    + inversion H; subst g'.
      destruct (match_here_sound _ _ E) as (side & c & b & -> & S & N & G).
      exists "", side, c, b. auto.
    + destruct (IH H) as (a & side & c & b & -> & S & N & G).
      exists (String ch a), side, c, b. auto.
Qed.

(** X1: a key that [_parse_icon] extracts comes from an icon-shaped piece of
    the input: the input is some text, [UI_AvatarIcon], nothing or [_Side],
    [_], the key, one character that is not a line break, [png], and some
    text; and the key has no line break in it. *)
Theorem re_search_sound (x g : string) :
  re_search x = Some g ->
  exists a side c b,
    x = a ++ "UI_AvatarIcon" ++ side ++ "_" ++ g ++ String c ("png" ++ b)
    /\ (side = "" \/ side = "_Side")
    /\ is_newline c = false /\ no_newline g = true
    /\ _parse_icon_str x = g.
Proof.
  intros H. destruct (re_search_shape _ _ H) as (a & side & c & b & E & S & N & G).
  exists a, side, c, b. repeat split; auto.
  unfold _parse_icon_str. now rewrite H.
Qed.

Lemma re_search_sound_witness :
  exists a side c b,
    ayaka_url = a ++ "UI_AvatarIcon" ++ side ++ "_" ++ "Ayaka" ++ String c ("png" ++ b)
    /\ (side = "" \/ side = "_Side").
Proof.
  destruct (re_search_sound ayaka_url "Ayaka" eq_refl)
    as (a & side & c & b & E & S & _).
  now exists a, side, c, b.
Defined.

(* ------------------------------------------------------------------ *)
(** ** Parsing a URL that [_create_icon] built *)

Lemma no_newline_app (a b : string) :
  no_newline (a ++ b) = no_newline a && no_newline b.
Proof.
  unfold no_newline. induction a as [|c a IH]; [reflexivity|].
  change (String c a ++ b) with (String c (a ++ b)). cbn [str_forall].
  now rewrite IH, andb_assoc.
Qed.

(** The greedy group takes a key without line breaks whole when the text
    ends right after the extension. *)
Lemma capture_tail_key (k : string) :
  no_newline k = true -> capture_tail (k ++ ".png") = Some k.
Proof.
  unfold no_newline. induction k as [|c k IH]; intros H; [reflexivity|].
  cbn [str_forall] in H. apply andb_true_iff in H as [N H].
  change (String c k ++ ".png") with (String c (k ++ ".png")).
  cbn [capture_tail]. apply negb_true_iff in N. now rewrite N, (IH H).
Qed.

(** The search passes over text without a capital U. *)
Lemma re_search_skip (p s : string) :
  no_capital_U p = true -> re_search (p ++ s) = re_search s.
Proof.
  unfold no_capital_U. induction p as [|c p IH]; intros H; [reflexivity|].
  cbn [str_forall] in H. apply andb_true_iff in H as [N H].
  change (String c p ++ s) with (String c (p ++ s)).
  cbn [re_search]. unfold match_here at 1. cbn [strip_prefix].
  apply negb_true_iff in N. now rewrite N, (IH H).
Qed.

Lemma re_search_here (s g : string) :
  match_here s = Some g -> re_search s = Some g.
Proof. intros H. destruct s; cbn [re_search]; now rewrite H. Qed.

Lemma match_here_side (k : string) :
  no_newline k = true ->
  match_here ("UI_AvatarIcon_Side_" ++ k ++ ".png") = Some k.
Proof.
  intros H. unfold match_here.
  change ("UI_AvatarIcon_Side_" ++ k ++ ".png")
    with ("UI_AvatarIcon" ++ "_Side" ++ "_" ++ k ++ ".png").
  rewrite strip_prefix_app, strip_prefix_app.
  unfold match_underscore_tail at 1. rewrite strip_prefix_app.
  now rewrite (capture_tail_key _ H).
Qed.

Lemma side_prefix_of_key (k r1 r2 : string) :
  strip_prefix "Side" (k ++ ".png") = Some r1 ->
  strip_prefix "_" r1 = Some r2 ->
  startswith k "Side_" = true.
Proof.
  unfold startswith. intros H1 H2.
  destruct k as [|c1 k]; [vm_compute in H1; discriminate|].
  change (String c1 k ++ ".png") with (String c1 (k ++ ".png")) in H1.
  cbn [strip_prefix] in H1 |- *.
  destruct (Ascii.eqb "S" c1); [|discriminate].
  destruct k as [|c2 k]; [vm_compute in H1; discriminate|].
  change (String c2 k ++ ".png") with (String c2 (k ++ ".png")) in H1.
  cbn [strip_prefix] in H1 |- *.
  destruct (Ascii.eqb "i" c2); [|discriminate].
  destruct k as [|c3 k]; [vm_compute in H1; discriminate|].
  change (String c3 k ++ ".png") with (String c3 (k ++ ".png")) in H1.
  cbn [strip_prefix] in H1 |- *.
  destruct (Ascii.eqb "d" c3); [|discriminate].
  destruct k as [|c4 k]; [vm_compute in H1; discriminate|].
  change (String c4 k ++ ".png") with (String c4 (k ++ ".png")) in H1.
  cbn [strip_prefix] in H1 |- *.
  destruct (Ascii.eqb "e" c4); [|discriminate].
  inversion H1; subst r1.
  destruct k as [|c5 k]; [vm_compute in H2; discriminate|].
  change (String c5 k ++ ".png") with (String c5 (k ++ ".png")) in H2.
  cbn [strip_prefix] in H2 |- *.
  now destruct (Ascii.eqb "_" c5).
Qed.

Lemma match_here_plain (k : string) :
  no_newline k = true -> startswith k "Side_" = false ->
  match_here ("UI_AvatarIcon_" ++ k ++ ".png") = Some k.
Proof.
  intros H S. unfold match_here.
  change ("UI_AvatarIcon_" ++ k ++ ".png")
    with ("UI_AvatarIcon" ++ "_" ++ k ++ ".png").
  rewrite strip_prefix_app.
  assert (W : match strip_prefix "_Side" ("_" ++ k ++ ".png") with
              | Some r1 => match_underscore_tail r1
              | None => None
              end = None).
  { change (strip_prefix "_Side" ("_" ++ k ++ ".png"))
      with (strip_prefix "Side" (k ++ ".png")).
    destruct (strip_prefix "Side" (k ++ ".png")) as [r1|] eqn:E1; [|reflexivity].
    unfold match_underscore_tail.
    destruct (strip_prefix "_" r1) as [r2|] eqn:E2; [|reflexivity].
    rewrite (side_prefix_of_key _ _ _ E1 E2) in S. discriminate. }
  rewrite W. unfold match_underscore_tail. rewrite strip_prefix_app.
  now apply capture_tail_key.
Qed.

(** X2: parsing the URL that [_create_icon] builds without a scale gives the
    key back, for a key without line breaks: with the specifier of
    [side_icon] always; with the specifier of the stored icon when the key
    does not begin with [Side_]; a key [Side_] + rest comes back as rest. *)
Theorem create_icon_round_trip (icon : string) :
  let key := _parse_icon_str icon in
  no_newline key = true ->
  _parse_icon_str (_create_icon icon "character_side_icon/UI_AvatarIcon_Side" 0) = key
  /\ (startswith key "Side_" = false ->
      _parse_icon_str (_create_icon icon "character_icon/UI_AvatarIcon" 0) = key)
  /\ (forall rest, key = "Side_" ++ rest ->
      _parse_icon_str (_create_icon icon "character_icon/UI_AvatarIcon" 0) = rest).
Proof.
  intros key H. unfold _create_icon. fold key. cbn [Z.eqb].
  split; [|split].
  - change (ICON_BASE ++ "character_side_icon/UI_AvatarIcon_Side" ++ "_" ++ key
              ++ "" ++ ".png")
      with ((ICON_BASE ++ "character_side_icon/")
              ++ "UI_AvatarIcon_Side_" ++ key ++ ".png").
    unfold _parse_icon_str at 1.
    rewrite re_search_skip by reflexivity.
    now rewrite (re_search_here _ _ (match_here_side _ H)).
  - intros S.
    change (ICON_BASE ++ "character_icon/UI_AvatarIcon" ++ "_" ++ key
              ++ "" ++ ".png")
      with ((ICON_BASE ++ "character_icon/") ++ "UI_AvatarIcon_" ++ key ++ ".png").
    unfold _parse_icon_str at 1.
    rewrite re_search_skip by reflexivity.
    now rewrite (re_search_here _ _ (match_here_plain _ H S)).
  - intros rest E. rewrite E in *. clear E.
    change (ICON_BASE ++ "character_icon/UI_AvatarIcon" ++ "_" ++ ("Side_" ++ rest)
              ++ "" ++ ".png")
      with ((ICON_BASE ++ "character_icon/")
              ++ "UI_AvatarIcon_Side_" ++ rest ++ ".png").
    unfold _parse_icon_str at 1.
    rewrite re_search_skip by reflexivity.
    rewrite no_newline_app in H. apply andb_true_iff in H as [_ H].
    now rewrite (re_search_here _ _ (match_here_side _ H)).
Qed.

Lemma create_icon_round_trip_witness :
  _parse_icon_str (_create_icon ayaka_url "character_side_icon/UI_AvatarIcon_Side" 0)
  = "Ayaka".
Proof. exact (proj1 (create_icon_round_trip ayaka_url eq_refl)). Defined.

(** X3: the URL of [image] does not parse back to the key: for a key without
    line breaks that does not begin with [Side_], parsing the URL built with
    scale 2 gives the key followed by [@2x]. *)
Theorem image_url_parses_with_scale (icon : string) :
  let key := _parse_icon_str icon in
  no_newline key = true -> startswith key "Side_" = false ->
  _parse_icon_str (_create_icon icon "character_image/UI_AvatarIcon" 2)
  = key ++ "@2x".
Proof.
  intros key H S. unfold _create_icon. fold key.
  change (ICON_BASE ++ "character_image/UI_AvatarIcon" ++ "_" ++ key
            ++ (if 2 =? 0 then "" else "@" ++ py_str_int 2 ++ "x") ++ ".png")
    with ((ICON_BASE ++ "character_image/") ++ "UI_AvatarIcon_" ++ key
            ++ "@2x" ++ ".png").
  unfold _parse_icon_str at 1.
  rewrite re_search_skip by reflexivity.
  rewrite <- (append_assoc key "@2x" ".png").
  rewrite (re_search_here _ (key ++ "@2x")); [reflexivity|].
  apply match_here_plain.
  - rewrite no_newline_app, H. reflexivity.
  - unfold startswith in *.
    destruct (strip_prefix "Side_" (key ++ "@2x")) as [r|] eqn:E; [|reflexivity].
    exfalso. revert S E. clear. intros S E.
    destruct key as [|c1 k]; [vm_compute in E; discriminate|].
    cbn [strip_prefix append] in S, E. destruct (Ascii.eqb "S" c1); [|discriminate].
    destruct k as [|c2 k]; [vm_compute in E; discriminate|].
    cbn [strip_prefix append] in S, E. destruct (Ascii.eqb "i" c2); [|discriminate].
    destruct k as [|c3 k]; [vm_compute in E; discriminate|].
    cbn [strip_prefix append] in S, E. destruct (Ascii.eqb "d" c3); [|discriminate].
    destruct k as [|c4 k]; [vm_compute in E; discriminate|].
    cbn [strip_prefix append] in S, E. destruct (Ascii.eqb "e" c4); [|discriminate].
    destruct k as [|c5 k]; [vm_compute in E; discriminate|].
    cbn [strip_prefix append] in S, E. destruct (Ascii.eqb "_" c5); discriminate.
Qed.

Lemma image_url_parses_with_scale_witness :
  _parse_icon_str (_create_icon "Ayaka" "character_image/UI_AvatarIcon" 2)
  = "Ayaka@2x".
Proof. exact (image_url_parses_with_scale "Ayaka" eq_refl eq_refl). Defined.

Lemma append_inv_head (a x y : string) : a ++ x = a ++ y -> x = y.
Proof.
  induction a as [|c a IH]; intros H; [exact H|].
  inversion H. auto.
Qed.

(** X4: for one specifier and one scale, [_create_icon] gives the same URL
    for two icons exactly when the two icons have the same key. *)
Theorem create_icon_same_url_iff (icon1 icon2 specifier : string) (scale : Z) :
  _create_icon icon1 specifier scale = _create_icon icon2 specifier scale
  <-> _parse_icon_str icon1 = _parse_icon_str icon2.
Proof.
  unfold _create_icon. split.
  - intros H.
    apply append_inv_head, append_inv_head, append_inv_head in H.
    set (scaled := if scale =? 0 then "" else "@" ++ py_str_int scale ++ "x") in H.
    rewrite <- (append_assoc (_parse_icon_str icon1)),
            <- (append_assoc (_parse_icon_str icon2)) in H.
    now apply append_inv_tail, append_inv_tail in H.
  - now intros ->.
Qed.

(* ------------------------------------------------------------------ *)
(** ** When [_get_db_char] writes to the registry *)

Lemma dict_append_neq (d : dict) (kv : Z * DBChar.t) : (d ++ [kv])%list <> d.
Proof.
  intros H. apply (f_equal (@List.length _)) in H.
  rewrite List.length_app in H. simpl in H. lia.
Qed.

Lemma first_where_icon_name (k : string) (d : dict) :
  first_where (fun char => String.eqb (DBChar.icon_name char) k) (dict_values d) = None
  <-> no_icon_name k d.
Proof.
  rewrite first_where_None. unfold no_icon_name. split; intros H c I.
  - apply String.eqb_neq. auto.
  - apply String.eqb_neq. auto.
Qed.

(** The call that appends: all five fields are given and neither the id nor
    the key of the icon is known. *)
Lemma get_db_char_inserts (id : option Z) (name icon element : option string)
    (rarity : option Z) (w : World) :
  truthy_int id = true -> dict_in (int_or id 0) (CHARACTER_NAMES w) = false ->
  recognizable icon = true ->
  no_icon_name (_parse_icon_str (str_or icon "")) (CHARACTER_NAMES w) ->
  truthy_str name = true -> truthy_str element = true -> truthy_int rarity = true ->
  let char := DBChar.mk (int_or id 0) (_parse_icon_str (str_or icon ""))
                        (str_or name "") (str_or element "") (int_or rarity 0) true in
  _get_db_char id name icon element rarity w
  = (inr char,
     mkWorld (CHARACTER_NAMES w ++ [(int_or id 0, char)])%list (warned w)).
Proof.
  intros Ti Hin Hrec Hno Tn Te Tr. cbv zeta.
  assert (Hhit : id_hit id (CHARACTER_NAMES w) = None) by (apply id_hit_None; auto).
  rewrite (get_db_char_icon _ _ _ _ _ _ Hhit Hrec).
  rewrite (proj2 (first_where_icon_name _ _) Hno).
  assert (Tc : truthy_str icon = true)
    by (unfold recognizable in Hrec; now apply andb_true_iff in Hrec as [T _]).
  rewrite Ti, Tn, Tc, Te, Tr. cbn [andb]. cbv zeta.
  rewrite dict_setitem_new; [reflexivity|].
  now apply dict_in_get.
Qed.

(** No other call changes the registry. *)
Lemma get_db_char_changes (id : option Z) (name icon element : option string)
    (rarity : option Z) (w : World) :
  CHARACTER_NAMES (snd (_get_db_char id name icon element rarity w))
    <> CHARACTER_NAMES w ->
  truthy_int id = true /\ dict_in (int_or id 0) (CHARACTER_NAMES w) = false
  /\ recognizable icon = true
  /\ no_icon_name (_parse_icon_str (str_or icon "")) (CHARACTER_NAMES w)
  /\ truthy_str name = true /\ truthy_str element = true
  /\ truthy_int rarity = true.
Proof.
  intros Hne.
  destruct (id_hit id (CHARACTER_NAMES w)) as [c|] eqn:Hhit.
  { rewrite (get_db_char_hit _ _ _ _ _ _ _ Hhit) in Hne. now contradiction Hne. }
  destruct (recognizable icon) eqn:Hrec.
  2:{ destruct (truthy_str name) eqn:Tn.
      - rewrite (get_db_char_name _ _ _ _ _ _ Hhit Hrec Tn) in Hne.
        destruct (first_where _ _); now contradiction Hne.
      - rewrite (get_db_char_raise _ _ _ _ _ _ Hhit Hrec Tn) in Hne.
        now contradiction Hne. }
  rewrite (get_db_char_icon _ _ _ _ _ _ Hhit Hrec) in Hne.
  destruct (first_where _ _) as [c|] eqn:F; [now contradiction Hne|].
  destruct (truthy_int id) eqn:Ti, (truthy_str name) eqn:Tn,
           (truthy_str icon) eqn:Tc, (truthy_str element) eqn:Te,
           (truthy_int rarity) eqn:Tr;
    cbn [andb] in Hne; try (now contradiction Hne).
  apply id_hit_None in Hhit as [Hf|Hin]; [rewrite Ti in Hf; discriminate|].
  apply first_where_icon_name in F. auto 10.
Qed.

(** X6: a call changes the registry exactly when the id is non-zero and not
    a key, the icon contains [genshin], no record has the icon's key as its
    [icon_name], and name, element and rarity are all truthy. The call then
    returns the record built from these fields, marked as guessed, appends it
    under the id and gives no warning. *)
Theorem registry_changes_iff (id : option Z) (name icon element : option string)
    (rarity : option Z) (w : World) :
  let r := _get_db_char id name icon element rarity w in
  let d := CHARACTER_NAMES w in
  let key := _parse_icon_str (str_or icon "") in
  let all_given :=
    truthy_int id = true /\ dict_in (int_or id 0) d = false
    /\ recognizable icon = true /\ no_icon_name key d
    /\ truthy_str name = true /\ truthy_str element = true
    /\ truthy_int rarity = true in
  let char := DBChar.mk (int_or id 0) key (str_or name "") (str_or element "")
                        (int_or rarity 0) true in
  (CHARACTER_NAMES (snd r) <> d <-> all_given)
  /\ (all_given ->
      r = (inr char, mkWorld (d ++ [(int_or id 0, char)])%list (warned w))).
Proof.
  cbv zeta. split; [split|].
  - apply get_db_char_changes.
  - intros (Ti & Hin & Hrec & Hno & Tn & Te & Tr).
    rewrite (get_db_char_inserts _ _ _ _ _ _ Ti Hin Hrec Hno Tn Te Tr).
    cbn [snd CHARACTER_NAMES]. apply dict_append_neq.
  - intros (Ti & Hin & Hrec & Hno & Tn & Te & Tr).
    exact (get_db_char_inserts _ _ _ _ _ _ Ti Hin Hrec Hno Tn Te Tr).
Qed.

Lemma registry_changes_iff_witness :
  _get_db_char (Some 10000002) (Some "Kamisato Ayaka") (Some ayaka_url)
               (Some "Cryo") (Some 5) (mkWorld [(10000021, amber)] [])
  = (inr ayaka_guessed,
     mkWorld [(10000021, amber); (10000002, ayaka_guessed)] []).
Proof.
  apply (proj2 (registry_changes_iff (Some 10000002) (Some "Kamisato Ayaka")
                  (Some ayaka_url) (Some "Cryo") (Some 5)
                  (mkWorld [(10000021, amber)] []))).
  repeat split; try reflexivity.
  intros c [<-|[]]. discriminate.
Defined.

(* ------------------------------------------------------------------ *)
(** ** Calling [_get_db_char] again *)

(** The answer and the registry do not depend on the warnings given so
    far. *)
Lemma get_db_char_log (id : option Z) (name icon element : option string)
    (rarity : option Z) (d : dict) (l1 l2 : list string) :
  fst (_get_db_char id name icon element rarity (mkWorld d l1))
  = fst (_get_db_char id name icon element rarity (mkWorld d l2))
  /\ CHARACTER_NAMES (snd (_get_db_char id name icon element rarity (mkWorld d l1)))
     = CHARACTER_NAMES (snd (_get_db_char id name icon element rarity (mkWorld d l2))).
Proof.
  run_M. cbn [CHARACTER_NAMES].
  destruct (id_hit id d); [split; reflexivity|].
  destruct (recognizable icon).
  - destruct (first_where _ _); [split; reflexivity|].
    destruct (truthy_int id && truthy_str name && truthy_str icon
              && truthy_str element && truthy_int rarity); split; reflexivity.
  - destruct (truthy_str name); [|split; reflexivity].
    destruct (first_where _ _); split; reflexivity.
Qed.

Lemma id_hit_appended (id : option Z) (d : dict) (char : DBChar.t) :
  truthy_int id = true -> dict_in (int_or id 0) d = false ->
  id_hit id (d ++ [(int_or id 0, char)])%list = Some char.
Proof.
  intros Ti Hin. unfold id_hit. rewrite Ti, dict_get_app.
  apply dict_in_get in Hin. rewrite Hin. cbn [dict_get].
  now rewrite Z.eqb_refl.
Qed.

Lemma first_where_app (p : DBChar.t -> bool) (l1 l2 : list DBChar.t) :
  first_where p (l1 ++ l2)%list =
  match first_where p l1 with
  | Some c => Some c
  | None => first_where p l2
  end.
Proof.
  induction l1 as [|a l1 IH]; cbn [first_where app]; [reflexivity|].
  now destruct (p a).
Qed.

(** X5: a second call with the same arguments gives the same answer as the
    first and leaves the registry as the first call left it: a record that
    the first call appended is found by its id, and nothing is appended
    twice. *)
Theorem resolution_stable (id : option Z) (name icon element : option string)
    (rarity : option Z) (w : World) :
  let r1 := _get_db_char id name icon element rarity w in
  let r2 := _get_db_char id name icon element rarity (snd r1) in
  fst r2 = fst r1
  /\ CHARACTER_NAMES (snd r2) = CHARACTER_NAMES (snd r1).
Proof.
  cbv zeta.
  destruct (get_db_char_registry id name icon element rarity w)
    as [[E _] | (c & Hc & Nz & G & E)].
  - destruct (_get_db_char id name icon element rarity w) as [a w1] eqn:R1.
    cbn [fst snd] in *. destruct w1 as [d1 l1]. cbn [CHARACTER_NAMES] in E.
    subst d1. destruct w as [d l]. cbn [CHARACTER_NAMES] in *.
    destruct (get_db_char_log id name icon element rarity d l1 l) as [F N].
    rewrite R1 in F, N. cbn [fst snd CHARACTER_NAMES] in F, N.
    now rewrite F, N.
  - assert (Hne : CHARACTER_NAMES (snd (_get_db_char id name icon element rarity w))
                  <> CHARACTER_NAMES w)
      by (rewrite E; apply dict_append_neq).
    destruct (get_db_char_changes _ _ _ _ _ _ Hne)
      as (Ti & Hin & Hrec & Hno & Tn & Te & Tr).
    rewrite (get_db_char_inserts _ _ _ _ _ _ Ti Hin Hrec Hno Tn Te Tr).
    cbn [fst snd]. cbv zeta.
    rewrite get_db_char_hit with (char :=
      DBChar.mk (int_or id 0) (_parse_icon_str (str_or icon "")) (str_or name "")
                (str_or element "") (int_or rarity 0) true);
      [split; reflexivity|].
    cbn [CHARACTER_NAMES]. now apply id_hit_appended.
Qed.

(** X7: after a call that appended a record, that record is what a later
    call returns for the same id whatever the other fields are, and what a
    call returns for an icon with [genshin] that has the record's key when
    its id, if any, is not a key; both leave the state as it is. *)
Theorem inserted_record_found (id : option Z) (name icon element : option string)
    (rarity : option Z) (w : World) :
  let r := _get_db_char id name icon element rarity w in
  let w1 := snd r in
  CHARACTER_NAMES w1 <> CHARACTER_NAMES w ->
  exists char,
    fst r = inr char
    /\ (forall name' icon' element' rarity',
          _get_db_char id name' icon' element' rarity' w1 = (inr char, w1))
    /\ (forall id' name' icon' element' rarity',
          id_hit id' (CHARACTER_NAMES w1) = None ->
          str_in "genshin" icon' = true ->
          _parse_icon_str icon' = DBChar.icon_name char ->
          _get_db_char id' name' (Some icon') element' rarity' w1 = (inr char, w1)).
Proof.
  cbv zeta. intros Hne.
  destruct (get_db_char_changes _ _ _ _ _ _ Hne)
    as (Ti & Hin & Hrec & Hno & Tn & Te & Tr).
  rewrite (get_db_char_inserts _ _ _ _ _ _ Ti Hin Hrec Hno Tn Te Tr).
  cbn [fst snd]. cbv zeta. eexists. split; [reflexivity|]. split.
  - intros name' icon' element' rarity'.
    apply get_db_char_hit. cbn [CHARACTER_NAMES].
    now apply id_hit_appended.
  - intros id' name' icon' element' rarity' Hhit Hin' Hkey.
    assert (Ts : truthy_str (Some icon') = true).
    { destruct icon'; [discriminate Hin' | reflexivity]. }
    assert (Ho : str_or (Some icon') "" = icon') by (unfold str_or; now rewrite Ts).
    rewrite get_db_char_icon; [|exact Hhit|unfold recognizable; now rewrite Ts, Ho].
    rewrite Ho, Hkey. cbn [CHARACTER_NAMES DBChar.icon_name].
    unfold dict_values. rewrite map_app, first_where_app.
    fold (dict_values (CHARACTER_NAMES w)).
    rewrite (proj2 (first_where_icon_name _ _) Hno).
    cbn [map snd first_where DBChar.icon_name]. now rewrite String.eqb_refl.
Qed.

Lemma inserted_record_found_witness :
  exists w1,
    _get_db_char (Some 10000002) (Some "Kamisato Ayaka") (Some ayaka_url)
                 (Some "Cryo") (Some 5) (mkWorld [(10000021, amber)] [])
    = (inr ayaka_guessed, w1)
    /\ _get_db_char None None (Some ayaka_url) None None w1 = (inr ayaka_guessed, w1).
Proof.
  exists (mkWorld [(10000021, amber); (10000002, ayaka_guessed)] []).
  split; [reflexivity|].
  destruct (inserted_record_found (Some 10000002) (Some "Kamisato Ayaka")
              (Some ayaka_url) (Some "Cryo") (Some 5)
              (mkWorld [(10000021, amber)] []))
    as (c & Hc & _ & Hicon).
  - vm_compute. discriminate.
  - inversion Hc; subst c.
    exact (Hicon None None ayaka_url None None eq_refl eq_refl eq_refl).
Defined.

(* ------------------------------------------------------------------ *)
(** ** Warnings *)

Lemma log_append_neq (l : list string) (msg : string) : (l ++ [msg])%list <> l.
Proof.
  intros H. apply (f_equal (@List.length _)) in H.
  rewrite List.length_app in H. simpl in H. lia.
Qed.

Lemma dict_setitem_In (k : Z) (v : DBChar.t) (d : dict) :
  In v (dict_values (dict_setitem k v d)).
Proof.
  induction d as [|[k' v'] d IH]; cbn [dict_setitem]; [now left|].
  destruct (k =? k'); [now left | now right].
Qed.

Lemma first_where_name (n : string) (d : dict) :
  first_where (fun char => String.eqb (DBChar.name char) n) (dict_values d) = None
  <-> no_name n d.
Proof.
  rewrite first_where_None. unfold no_name. split; intros H c I.
  - apply String.eqb_neq. auto.
  - apply String.eqb_neq. auto.
Qed.

(** X8: a call gives at most one warning, and it gives one exactly when the
    record it returns is not in the registry after the call; that record has
    id 0 and is marked as guessed, and the registry is as it was. A record
    found in the registry, a record appended to it, and a raise give no
    warning. *)
Theorem warning_iff_unregistered (id : option Z) (name icon element : option string)
    (rarity : option Z) (w : World) :
  let r := _get_db_char id name icon element rarity w in
  let unregistered (char : DBChar.t) :=
    fst r = inr char /\ ~ In char (dict_values (CHARACTER_NAMES (snd r))) in
  (warned (snd r) = warned w
   \/ exists msg, warned (snd r) = (warned w ++ [msg])%list)
  /\ (warned (snd r) <> warned w <-> exists char, unregistered char)
  /\ (forall char, unregistered char ->
        DBChar.id char = 0 /\ DBChar.guessed char = true
        /\ CHARACTER_NAMES (snd r) = CHARACTER_NAMES w).
Proof.
  cbv zeta. by_rule id name icon element rarity w; cbn [fst snd].
  - split; [now left|]. split; [split|].
    + intros H; now contradiction H.
    + intros (c & E & N). inversion E; subst. exfalso. eauto using id_hit_Some_In.
    + intros c (E & N). inversion E; subst. exfalso. eauto using id_hit_Some_In.
  - destruct (first_where _ _) as [c0|] eqn:F; cbn [fst snd].
    + apply first_where_Some in F as [I _].
      split; [now left|]. split; [split|].
      * intros H; now contradiction H.
      * intros (c & E & N). inversion E; subst. tauto.
      * intros c (E & N). inversion E; subst. tauto.
    + destruct (truthy_int id && truthy_str name && truthy_str icon
                && truthy_str element && truthy_int rarity);
        cbv zeta; cbn [fst snd CHARACTER_NAMES warned].
      * split; [now left|]. split; [split|].
        -- intros H; now contradiction H.
        -- intros (c & E & N). inversion E; subst. exfalso. apply N, dict_setitem_In.
        -- intros c (E & N). inversion E; subst. exfalso. apply N, dict_setitem_In.
      * apply first_where_icon_name in F.
        split; [right; eexists; reflexivity|]. split; [split|].
        -- intros _. eexists. split; [reflexivity|].
           intros I. now apply (F _ I).
        -- intros _. apply log_append_neq.
        -- intros c (E & N). inversion E; subst. auto.
  - destruct (first_where _ _) as [c0|] eqn:F; cbn [fst snd CHARACTER_NAMES warned].
    + apply first_where_Some in F as [I _].
      split; [now left|]. split; [split|].
      * intros H; now contradiction H.
      * intros (c & E & N). inversion E; subst. tauto.
      * intros c (E & N). inversion E; subst. tauto.
    + apply first_where_name in F.
      split; [right; eexists; reflexivity|]. split; [split|].
      * intros _. eexists. split; [reflexivity|].
        intros I. now apply (F _ I).
      * intros _. apply log_append_neq.
      * intros c (E & N). inversion E; subst. auto.
  - split; [now left|]. split; [split|].
    + intros H; now contradiction H.
    + intros (c & E & N). discriminate.
    + intros c (E & N). discriminate.
Qed.

Lemma warning_iff_unregistered_witness :
  warned (snd (_get_db_char None (Some "Hero") None None None
                 (mkWorld [(10000021, amber)] [])))
  <> [].
Proof.
  apply (proj2 (proj1 (proj2 (warning_iff_unregistered None (Some "Hero") None None None
                                (mkWorld [(10000021, amber)] []))))).
  eexists. split; [reflexivity|].
  intros [E|[]]. discriminate E.
Defined.

(* ------------------------------------------------------------------ *)
(** ** Returned records and the registry *)

Lemma dict_wf_get (d : dict) (char : DBChar.t) :
  dict_wf d -> In char (dict_values d) -> dict_get (DBChar.id char) d = Some char.
Proof.
  intros [N F]. induction d as [|[k v] d IH]; cbn [dict_values map In snd];
    [tauto|].
  cbn [dict_keys map fst] in N. inversion N as [|? ? Nk Nd]; subst.
  inversion F as [|? ? Fk Fd]; subst. cbn [fst snd] in Fk.
  cbn [dict_get]. intros [Ev|I].
  - subst v. now rewrite Fk, Z.eqb_refl.
  - destruct (Z.eqb_spec (DBChar.id char) k) as [E|E].
    + exfalso. apply Nk. specialize (IH Nd Fd I).
      apply dict_get_In in IH. rewrite <- E.
      unfold dict_keys. now apply (in_map fst) in IH.
    + now apply IH.
Qed.

(** X9: in a registry that stores every record under its own id, the record
    that a call returns is stored under its id in the registry after the
    call, or it is a guess of id 0 that is in no registry: the registry is
    then as it was. *)
Theorem returned_record_stored (id : option Z) (name icon element : option string)
    (rarity : option Z) (w w' : World) (char : DBChar.t) :
  dict_wf (CHARACTER_NAMES w) ->
  _get_db_char id name icon element rarity w = (inr char, w') ->
  dict_get (DBChar.id char) (CHARACTER_NAMES w') = Some char
  \/ (DBChar.id char = 0 /\ DBChar.guessed char = true
      /\ CHARACTER_NAMES w' = CHARACTER_NAMES w
      /\ ~ In char (dict_values (CHARACTER_NAMES w'))).
Proof.
  intros W. by_rule id name icon element rarity w.
  - intros H; inversion H; subst. left.
    eauto using dict_wf_get, id_hit_Some_In.
  - destruct (first_where _ _) as [c0|] eqn:F.
    + intros H; inversion H; subst. left.
      apply first_where_Some in F as [I _]. now apply dict_wf_get.
    + destruct (truthy_int id && truthy_str name && truthy_str icon
                && truthy_str element && truthy_int rarity) eqn:C; cbv zeta;
        intros H; inversion H; subst; cbn [CHARACTER_NAMES DBChar.id].
      * left.
        assert (Ti : truthy_int id = true).
        { repeat (apply andb_true_iff in C as [C _]). exact C. }
        assert (G : dict_get (int_or id 0) (CHARACTER_NAMES w) = None).
        { unfold id_hit in Hhit. now rewrite Ti in Hhit. }
        rewrite (dict_setitem_new _ _ _ G), dict_get_app, G.
        cbn [dict_get]. now rewrite Z.eqb_refl.
      * right. apply first_where_icon_name in F.
        repeat split; auto. intros I. now apply (F _ I).
  - destruct (first_where _ _) as [c0|] eqn:F.
    + intros H; inversion H; subst. left.
      apply first_where_Some in F as [I _]. now apply dict_wf_get.
    + intros H; inversion H; subst; cbn [CHARACTER_NAMES DBChar.id].
      right. apply first_where_name in F.
      repeat split; auto. intros I. now apply (F _ I).
  - discriminate.
Qed.

Lemma returned_record_stored_witness :
  dict_get (DBChar.id amber) [(10000021, amber)] = Some amber
  \/ (DBChar.id amber = 0 /\ DBChar.guessed amber = true
      /\ [(10000021, amber)] = [(10000021, amber)]
      /\ ~ In amber (dict_values [(10000021, amber)])).
Proof.
  apply (returned_record_stored None (Some "Amber") None None None
           (mkWorld [(10000021, amber)] []) (mkWorld [(10000021, amber)] []) amber).
  - split; repeat constructor; simpl; tauto.
  - reflexivity.
Defined.

(** X10: whatever calls are made, the registry keeps the table it started
    from as its beginning: records are only added behind it, and an id that
    the table had keeps giving the same record. *)
Theorem registry_only_grows (init : dict) (w : World) :
  reachable init w ->
  exists added,
    CHARACTER_NAMES w = (init ++ added)%list
    /\ (forall k char, dict_get k init = Some char ->
                       dict_get k (CHARACTER_NAMES w) = Some char)
    /\ (forall char, In char (dict_values init) ->
                     In char (dict_values (CHARACTER_NAMES w))).
Proof.
  intros R.
  assert (P : exists added, CHARACTER_NAMES w = (init ++ added)%list).
  { induction R as [log | w id name icon element rarity _ IH
                    | w icon _ IH | w values _ IH].
    - exists []. cbn [CHARACTER_NAMES]. now rewrite app_nil_r.
    - destruct IH as [added E].
      destruct (get_db_char_registry id name icon element rarity w)
        as [[-> _] | (c & _ & _ & _ & ->)]; [now exists added|].
      exists (added ++ [(DBChar.id c, c)])%list. now rewrite E, app_assoc.
    - now rewrite parse_icon_state.
    - rewrite new_state. destruct IH as [added E].
      destruct (get_db_char_registry (Values.id values) (Values.icon values)
                  (Values.name values) (Values.element values)
                  (Values.rarity values) w)
        as [[-> _] | (c & _ & _ & _ & ->)]; [now exists added|].
      exists (added ++ [(DBChar.id c, c)])%list. now rewrite E, app_assoc. }
  destruct P as [added E]. exists added. split; [exact E|]. rewrite E. split.
  - intros k c G. now rewrite dict_get_app, G.
  - intros c I. unfold dict_values in *. rewrite map_app. apply in_or_app. now left.
Qed.

Lemma registry_only_grows_witness :
  exists added,
    CHARACTER_NAMES
      (snd (_get_db_char (Some 10000002) (Some "Kamisato Ayaka") (Some ayaka_url)
                         (Some "Cryo") (Some 5) (mkWorld [(10000021, amber)] [])))
    = ([(10000021, amber)] ++ added)%list.
Proof.
  destruct (registry_only_grows [(10000021, amber)] _
              (reach_get_db_char _ _ (Some 10000002) (Some "Kamisato Ayaka")
                 (Some ayaka_url) (Some "Cryo") (Some 5)
                 (reach_init [(10000021, amber)] [])))
    as (added & E & _).
  now exists added.
Defined.

(* ------------------------------------------------------------------ *)
(** ** The icon of a [BaseCharacter] *)

Lemma strip_prefix_app_r (p a b r : string) :
  strip_prefix p a = Some r -> strip_prefix p (a ++ b) = Some (r ++ b).
Proof.
  intros H. apply strip_prefix_Some in H. subst a.
  rewrite append_assoc. apply strip_prefix_app.
Qed.

Lemma str_in_app (n a b : string) :
  str_in n a = true -> str_in n (a ++ b) = true.
Proof.
  induction a as [|c a IH].
  - cbn [str_in]. rewrite orb_false_r. unfold startswith.
    destruct (strip_prefix n "") as [r|] eqn:E; [|discriminate].
    intros _. destruct n; [|discriminate E].
    destruct b; reflexivity.
  - change (String c a ++ b) with (String c (a ++ b)). cbn [str_in].
    intros H. apply orb_true_iff in H as [H|H].
    + unfold startswith in *.
      destruct (strip_prefix n (String c a)) as [r|] eqn:E; [|discriminate].
      change (String c (a ++ b)) with (String c a ++ b).
      now rewrite (strip_prefix_app_r _ _ b _ E).
    + rewrite (IH H). apply orb_true_r.
Qed.

(** The icon that the construction stores. *)
Lemma new_icon (values : Values.t) (w w' : World) (self : BaseCharacter.t) :
  BaseCharacter.new values w = (inr self, w') ->
  exists char,
    _get_db_char (Values.id values) (Values.icon values) (Values.name values)
                 (Values.element values) (Values.rarity values) w
    = (inr char, w')
    /\ BaseCharacter.id self = DBChar.id char
    /\ BaseCharacter.icon self
       = (if truthy_str (Values.icon values) then
            if negb (str_in "genshin" (str_or (Values.icon values) ""))
               && negb (DBChar.id char =? 0)
            then _create_icon (DBChar.icon_name char) "character_icon/UI_AvatarIcon" 0
            else str_or (Values.icon values) ""
          else _create_icon (DBChar.icon_name char) "character_icon/UI_AvatarIcon" 0).
Proof.
  unfold BaseCharacter.new, BaseCharacter.__autocomplete, bind, ret.
  destruct (_get_db_char _ _ _ _ _ w) as [[e|char] w1]; [discriminate|].
  cbn [Values.id Values.name Values.icon Values.element Values.rarity
       Values.collab Values.item].
  intros H. exists char.
  destruct (truthy_str (Values.icon values)) eqn:T.
  - destruct (Values.icon values) as [i|]; [|discriminate].
    assert (So : str_or (Some i) "" = i) by (unfold str_or; now rewrite T).
    rewrite So in *.
    destruct (negb (str_in "genshin" i) && negb (DBChar.id char =? 0));
      cbn [Values.id Values.name Values.icon Values.element Values.rarity
           Values.collab Values.item] in H;
      destruct (DBChar.rarity char >? 100);
      try destruct (DBChar.id char =? 10000062);
      cbn [BaseCharacter.of_values Values.id Values.name Values.icon
           Values.element Values.rarity Values.collab] in H;
      inversion H; subst; cbn [BaseCharacter.id BaseCharacter.icon];
      repeat split; reflexivity.
  - cbn [Values.id Values.name Values.icon Values.element Values.rarity
         Values.collab Values.item] in H.
    destruct (DBChar.rarity char >? 100);
      try destruct (DBChar.id char =? 10000062);
      cbn [BaseCharacter.of_values Values.id Values.name Values.icon
           Values.element Values.rarity Values.collab] in H;
      inversion H; subst; cbn [BaseCharacter.id BaseCharacter.icon];
      repeat split; reflexivity.
Qed.

(** X11: the icon of a constructed character, with [char] the record that
    [_get_db_char] returned: an icon given with [genshin] in it is kept; a
    non-empty icon is kept when the id of [char] is 0; an icon given without
    [genshin] is replaced by the URL built from the [icon_name] of [char]
    when the id is not 0; with no icon, or an empty one, the built URL is
    stored. So the stored icon is never empty, and it contains [genshin]
    whenever the id of the character is not 0. *)
Theorem constructed_icon (values : Values.t) (w w' : World) (self : BaseCharacter.t) :
  BaseCharacter.new values w = (inr self, w') ->
  exists char,
    _get_db_char (Values.id values) (Values.icon values) (Values.name values)
                 (Values.element values) (Values.rarity values) w
    = (inr char, w')
    /\ let built := ICON_BASE ++ "character_icon/UI_AvatarIcon_"
                      ++ _parse_icon_str (DBChar.icon_name char) ++ ".png" in
       (forall i, Values.icon values = Some i -> str_in "genshin" i = true ->
                  BaseCharacter.icon self = i)
       /\ (forall i, Values.icon values = Some i -> i <> "" -> DBChar.id char = 0 ->
                     BaseCharacter.icon self = i)
       /\ (forall i, Values.icon values = Some i -> str_in "genshin" i = false ->
                     DBChar.id char <> 0 -> BaseCharacter.icon self = built)
       /\ (truthy_str (Values.icon values) = false -> BaseCharacter.icon self = built)
       /\ BaseCharacter.icon self <> ""
       /\ (BaseCharacter.id self <> 0 ->
           str_in "genshin" (BaseCharacter.icon self) = true).
Proof.
  intros H. destruct (new_icon _ _ _ _ H) as (char & G & Hid & Hi).
  exists char. split; [exact G|]. cbv zeta.
  assert (B : _create_icon (DBChar.icon_name char) "character_icon/UI_AvatarIcon" 0
              = ICON_BASE ++ "character_icon/UI_AvatarIcon_"
                  ++ _parse_icon_str (DBChar.icon_name char) ++ ".png")
    by reflexivity.
  rewrite B in Hi. clear B.
  set (built := ICON_BASE ++ "character_icon/UI_AvatarIcon_"
                  ++ _parse_icon_str (DBChar.icon_name char) ++ ".png") in *.
  assert (Bg : str_in "genshin" built = true).
  { unfold built. apply str_in_app. reflexivity. }
  assert (Bn : built <> "") by (unfold built; discriminate).
  rewrite Hid, Hi. clear Hi Hid H G.
  assert (E0 : str_in "genshin" "" = false) by reflexivity.
  destruct (Values.icon values) as [i|]; cbn [truthy_str].
  2:{ repeat split; intros; try discriminate; auto. }
  destruct (String.eqb_spec i "") as [->|Ne]; cbn [negb].
  { repeat split; intros;
      repeat match goal with
             | H : Some _ = Some _ |- _ => inversion H; clear H; subst
             end; try congruence; auto. }
  assert (So : str_or (Some i) "" = i).
  { unfold str_or. cbn [truthy_str]. apply String.eqb_neq in Ne. now rewrite Ne. }
  rewrite So.
  destruct (str_in "genshin" i) eqn:Si;
    destruct (Z.eqb_spec (DBChar.id char) 0) as [Z0|Z0]; cbn [negb andb];
    repeat split; intros;
    repeat match goal with
           | H : Some _ = Some _ |- _ => inversion H; clear H; subst
           end; try congruence; auto.
Qed.

Lemma constructed_icon_witness :
  exists self w',
    BaseCharacter.new (Values.mk (Some 10000021) None None None (Some "Ambor") None)
                      (mkWorld [(10000021, amber)] []) = (inr self, w')
    /\ BaseCharacter.icon self
       = ICON_BASE ++ "character_icon/UI_AvatarIcon_Ambor.png".
Proof.
  eexists. eexists. split; [reflexivity|].
  destruct (constructed_icon
              (Values.mk (Some 10000021) None None None (Some "Ambor") None)
              (mkWorld [(10000021, amber)] []) _ _ eq_refl)
    as (char & G & _ & _ & H & _).
  inversion G; subst char.
  apply (H "Ambor"); [reflexivity | reflexivity | discriminate].
Defined.

(* ------------------------------------------------------------------ *)
(** ** A character of the registry, constructed from its id *)

Lemma parse_built_icon (key : string) :
  no_newline key = true -> startswith key "Side_" = false ->
  _parse_icon_str (ICON_BASE ++ "character_icon/UI_AvatarIcon_" ++ key ++ ".png")
  = key.
Proof.
  intros H S.
  change (ICON_BASE ++ "character_icon/UI_AvatarIcon_" ++ key ++ ".png")
    with ((ICON_BASE ++ "character_icon/") ++ "UI_AvatarIcon_" ++ key ++ ".png").
  unfold _parse_icon_str.
  rewrite re_search_skip by reflexivity.
  now rewrite (re_search_here _ _ (match_here_plain _ H S)).
Qed.

(** X12: a non-zero id that is a key of the registry, given with no icon
    (or an empty one) and whatever name, element, rarity and collab: the
    construction returns, changes nothing, and the character has the id, name
    and element of the registry's record; when the key of the record's
    [icon_name] has no line break and does not begin with [Side_], the stored
    icon, [image] and [side_icon] are the three URLs of that key. *)
Theorem construct_by_id (n : Z) (name icon element : option string)
    (rarity : option Z) (collab : option bool) (w : World) (char : DBChar.t) :
  n <> 0 -> dict_get n (CHARACTER_NAMES w) = Some char ->
  truthy_str icon = false ->
  exists self,
    BaseCharacter.new (Values.mk (Some n) name element rarity icon collab) w
    = (inr self, w)
    /\ BaseCharacter.id self = DBChar.id char
    /\ BaseCharacter.name self = DBChar.name char
    /\ BaseCharacter.element self = DBChar.element char
    /\ let key := _parse_icon_str (DBChar.icon_name char) in
       BaseCharacter.icon self
       = ICON_BASE ++ "character_icon/UI_AvatarIcon_" ++ key ++ ".png"
       /\ (no_newline key = true -> startswith key "Side_" = false ->
           BaseCharacter.image self
           = ICON_BASE ++ "character_image/UI_AvatarIcon_" ++ key ++ "@2x.png"
           /\ BaseCharacter.side_icon self
              = ICON_BASE ++ "character_side_icon/UI_AvatarIcon_Side_" ++ key
                  ++ ".png").
Proof.
  intros Nz G Ti.
  set (values := Values.mk (Some n) name element rarity icon collab).
  assert (R : _get_db_char (Values.id values) (Values.icon values)
                (Values.name values) (Values.element values)
                (Values.rarity values) w = (inr char, w)).
  { apply get_db_char_hit. unfold id_hit. cbn [Values.id values truthy_int].
    apply Z.eqb_neq in Nz. rewrite Nz. cbn [negb].
    unfold int_or. cbn [truthy_int]. now rewrite Nz. }
  destruct (new_returns _ _ _ _ R) as [self N].
  exists self. split; [exact N|].
  destruct (new_fields _ _ _ _ N) as (c1 & R1 & Hid & Hname & Hel & _).
  destruct (new_icon _ _ _ _ N) as (c2 & R2 & _ & Hicon).
  rewrite R in R1, R2. inversion R1; subst c1. inversion R2; subst c2.
  cbn [Values.icon values] in Hicon. rewrite Ti in Hicon.
  split; [exact Hid|]. split; [exact Hname|]. split; [exact Hel|].
  change (_create_icon (DBChar.icon_name char) "character_icon/UI_AvatarIcon" 0)
    with (ICON_BASE ++ "character_icon/UI_AvatarIcon_"
            ++ _parse_icon_str (DBChar.icon_name char) ++ ".png") in Hicon.
  cbv zeta. split; [exact Hicon|].
  intros Hn Hs. unfold BaseCharacter.image, BaseCharacter.side_icon, _create_icon.
  rewrite Hicon, (parse_built_icon _ Hn Hs). split; reflexivity.
Qed.

Lemma construct_by_id_witness :
  exists self,
    BaseCharacter.new (Values.mk (Some 10000021) (Some "amber?") None None None None)
                      (mkWorld [(10000021, amber)] [])
    = (inr self, mkWorld [(10000021, amber)] [])
    /\ BaseCharacter.name self = "Amber"
    /\ BaseCharacter.side_icon self
       = ICON_BASE ++ "character_side_icon/UI_AvatarIcon_Side_Ambor.png".
Proof.
  destruct (construct_by_id 10000021 (Some "amber?") None None None None
              (mkWorld [(10000021, amber)] []) amber)
    as (self & N & _ & Hname & _ & _ & H); [discriminate | reflexivity | reflexivity |].
  exists self. split; [exact N|]. split; [exact Hname|].
  exact (proj2 (H eq_refl eq_refl)).
Defined.

(* ------------------------------------------------------------------ *)
(** ** The record that answers a call *)

Lemma first_where_split (p : DBChar.t -> bool) (d : dict) (char : DBChar.t) :
  first_where p (dict_values d) = Some char ->
  exists d1 k d2,
    d = (d1 ++ (k, char) :: d2)%list /\ p char = true
    /\ (forall c, In c (dict_values d1) -> p c = false).
Proof.
  induction d as [|[k v] d IH]; cbn [dict_values map first_where snd];
    [discriminate|].
  destruct (p v) eqn:E.
  - intros H; inversion H; subst. exists [], k, d.
    split; [reflexivity|]. split; [exact E|]. intros c [].
  - intros H. destruct (IH H) as (d1 & k' & d2 & -> & P & N).
    exists ((k, v) :: d1), k', d2. split; [reflexivity|]. split; [exact P|].
    intros c [<-|I]; auto.
Qed.

(** X13: the record that a call returns fits the field that found it. With
    an id that is a key it is the record under that key. Otherwise, with an
    icon that contains [genshin], its [icon_name] is the key of the icon;
    otherwise its [name] is the given name. *)
Theorem returned_record_matches (id : option Z) (name icon element : option string)
    (rarity : option Z) (w w' : World) (char : DBChar.t) :
  _get_db_char id name icon element rarity w = (inr char, w') ->
  (forall n, id = Some n -> n <> 0 ->
             forall c, dict_get n (CHARACTER_NAMES w) = Some c -> char = c)
  /\ (id_hit id (CHARACTER_NAMES w) = None -> recognizable icon = true ->
      DBChar.icon_name char = _parse_icon_str (str_or icon ""))
  /\ (id_hit id (CHARACTER_NAMES w) = None -> recognizable icon = false ->
      truthy_str name = true /\ name = Some (DBChar.name char)).
Proof.
  by_rule id name icon element rarity w; intros H.
  - inversion H; subst. split; [|split; discriminate].
    intros n -> Nz c G. unfold id_hit, int_or in Hhit. cbn [truthy_int] in Hhit.
    apply Z.eqb_neq in Nz. rewrite Nz in Hhit. cbn [negb] in Hhit. congruence.
  - split; [|split; [intros _ _ | discriminate]].
    + intros n -> Nz c G. unfold id_hit, int_or in Hhit. cbn [truthy_int] in Hhit.
      apply Z.eqb_neq in Nz. rewrite Nz in Hhit. cbn [negb] in Hhit. congruence.
    + destruct (first_where _ _) as [c0|] eqn:F.
      * inversion H; subst. apply first_where_Some in F as [_ E].
        now apply String.eqb_eq in E.
      * destruct (truthy_int id && truthy_str name && truthy_str icon
                  && truthy_str element && truthy_int rarity);
          cbv zeta in H; inversion H; reflexivity.
  - split; [|split; [discriminate | intros _ _]].
    + intros n -> Nz c G. unfold id_hit, int_or in Hhit. cbn [truthy_int] in Hhit.
      apply Z.eqb_neq in Nz. rewrite Nz in Hhit. cbn [negb] in Hhit. congruence.
    + split; [reflexivity|].
      rewrite (truthy_str_or name "" Hname) at 1. f_equal.
      destruct (first_where _ _) as [c0|] eqn:F.
      * inversion H; subst. apply first_where_Some in F as [_ E].
        apply String.eqb_eq in E. now symmetry.
      * inversion H; reflexivity.
  - discriminate.
Qed.

Lemma returned_record_matches_witness :
  DBChar.icon_name (DBChar.mk 0 "Ayaka" "Ayaka" "Anemo" 5 true)
  = _parse_icon_str (str_or (Some ayaka_url) "").
Proof.
  refine (proj1 (proj2 (returned_record_matches None None (Some ayaka_url) None None
                          (mkWorld [(10000021, amber)] []) _ _ eq_refl))
                eq_refl eq_refl).
Defined.

(** X14: a record found by icon or by name is the oldest record of the
    registry that fits: when the id finds nothing and the call returns a
    record of the registry, no record stored before it has the same
    [icon_name] (for an icon with [genshin]) or the same [name]
    (otherwise). *)
Theorem lookup_returns_oldest (id : option Z) (name icon element : option string)
    (rarity : option Z) (w w' : World) (char : DBChar.t) :
  _get_db_char id name icon element rarity w = (inr char, w') ->
  id_hit id (CHARACTER_NAMES w) = None ->
  In char (dict_values (CHARACTER_NAMES w)) ->
  exists d1 k d2,
    CHARACTER_NAMES w = (d1 ++ (k, char) :: d2)%list
    /\ (recognizable icon = true ->
        no_icon_name (_parse_icon_str (str_or icon "")) d1)
    /\ (recognizable icon = false -> no_name (str_or name "") d1).
Proof.
  intros H Hhit I.
  destruct (recognizable icon) eqn:Hicon.
  - rewrite (get_db_char_icon _ _ _ _ _ _ Hhit Hicon) in H.
    destruct (first_where _ _) as [c0|] eqn:F.
    + inversion H; subst.
      destruct (first_where_split _ _ _ F) as (d1 & k & d2 & E & _ & N).
      exists d1, k, d2. split; [exact E|]. split; [|discriminate].
      intros _ c Ic. apply String.eqb_neq. now apply N.
    + exfalso. apply first_where_icon_name in F.
      destruct (truthy_int id && truthy_str name && truthy_str icon
                && truthy_str element && truthy_int rarity);
        cbv zeta in H; inversion H; subst; now apply (F _ I).
  - destruct (truthy_str name) eqn:Hname.
    + rewrite (get_db_char_name _ _ _ _ _ _ Hhit Hicon Hname) in H.
      destruct (first_where _ _) as [c0|] eqn:F.
      * inversion H; subst.
        destruct (first_where_split _ _ _ F) as (d1 & k & d2 & E & _ & N).
        exists d1, k, d2. split; [exact E|]. split; [discriminate|].
        intros _ c Ic. apply String.eqb_neq. now apply N.
      * exfalso. apply first_where_name in F.
        inversion H; subst; now apply (F _ I).
    + rewrite (get_db_char_raise _ _ _ _ _ _ Hhit Hicon Hname) in H. discriminate.
Qed.

Lemma lookup_returns_oldest_witness :
  exists d1 k d2,
    [(10000021, amber); (7, amber)] = (d1 ++ (k, amber) :: d2)%list
    /\ (recognizable None = false -> no_name "Amber" d1).
Proof.
  destruct (lookup_returns_oldest None (Some "Amber") None None None
              (mkWorld [(10000021, amber); (7, amber)] [])
              (mkWorld [(10000021, amber); (7, amber)] []) amber
              eq_refl eq_refl (or_introl eq_refl))
    as (d1 & k & d2 & E & _ & N).
  now exists d1, k, d2.
Defined.
